(** * SpeedTracking: the velocity gate of [backgroundSub.py]

    A shallow embedding of the per-frame loop of [main] (the dictionary
    [velCentroids], the clock reads, the printed velocities), of
    [findContours], and of the identity tracker that [main] drives.

    Python floats are IEEE-754 binary64 numbers, which is what Rocq's
    primitive floats are, so timestamps and velocities are values of
    [float] and the arithmetic of line 114-115 is computed, not idealised.
    Pixel coordinates and object ids are integers ([Z]). *)

From Stdlib Require Import ZArith List Lia Bool Floats Sorted.
From stdpp Require Import gmap list sorting.

Set Default Proof Using "Type".
#[local] Set Warnings "-inexact-float".

(** ** Values and the variables of [main] *)

(** A centroid as the tracker hands it out: [centroid[0]], [centroid[1]]. *)
Record Centroid : Type := mkCentroid { c0 : Z; c1 : Z }.

(** What the variable [objectID] can hold: a key of [centoids] (an
    integer), or, after line 118, the velocity that was just printed. *)
Inductive pyval : Type :=
| PyInt (z : Z)
| PyFloat (f : float).

(** Line 77. *)
Definition distance : float := 0.002%float.

(** The variables of [main] that the loop of lines 100-121 reads or writes.
    [stdout] lists the velocities printed so far, oldest first; each is
    kept together with the key whose iteration printed it (the printed
    text itself holds the velocity only). [objectID] is [None] until the
    loop variable is bound for the first time. *)
Record world : Type := mkWorld {
  velCentroids : gmap Z float;
  centoids : list (Z * Centroid);
  objectID : option pyval;
  stdout : list (Z * float)
}.

(** Line 80, before the first frame. *)
Definition initial : world :=
  {| velCentroids := ∅; centoids := []; objectID := None; stdout := [] |}.

(** How a piece of the loop ends: it runs through, or line 115 divides by
    a zero [totalTime] and the uncaught [ZeroDivisionError] ends the
    program. Either way the world reached so far is kept: what was
    printed stays printed. *)
Inductive outcome : Type :=
| Normal (w : world)
| ZeroDivisionError (w : world).

Definition world_of (o : outcome) : world :=
  match o with Normal w | ZeroDivisionError w => w end.

(** Whether a piece of the loop ran through. *)
Definition runs_through (o : outcome) : bool :=
  match o with Normal _ => true | ZeroDivisionError _ => false end.

Definition bind (o : outcome) (k : world -> outcome) : outcome :=
  match o with
  | Normal w => k w
  | ZeroDivisionError w => ZeroDivisionError w
  end.

Notation "o >>> k" := (bind o k) (at level 50, left associativity).

(** ** The loop of lines 100-121 *)

(** Binding the loop variable. *)
Definition set_objectID (v : pyval) (w : world) : world :=
  {| velCentroids := velCentroids w; centoids := centoids w;
     objectID := Some v; stdout := stdout w |}.

(** One iteration, for the item [(key, centroid)] of [centoids.items()].
    [now] is what [time.time()] returns in this iteration; it is read at
    most once (line 106 or line 113). Line 121 only draws. *)
Definition loop_body (now : float) (key : Z) (centroid : Centroid)
    (w : world) : outcome :=
  let w := set_objectID (PyInt key) w in
  if (200 <? c0 centroid)%Z && (c0 centroid <? 600)%Z then
    match velCentroids w !! key with
    | None =>
        let start_time := now in
        Normal {| velCentroids := <[key := start_time]> (velCentroids w);
                  centoids := centoids w;
                  objectID := objectID w; stdout := stdout w |}
    | Some _ => Normal w
    end
  else
    match velCentroids w !! key with
    | Some entry =>
        if (c0 centroid <? 200)%Z || (600 <? c0 centroid)%Z then
          let endtime := now in
          let totalTime := (endtime - entry)%float in
          if PrimFloat.eqb totalTime 0%float then ZeroDivisionError w
          else
            let vel := (distance / totalTime * 3600)%float in
            Normal {| velCentroids := delete key (velCentroids w);
                      centoids := centoids w;
                      objectID := Some (PyFloat vel);
                      stdout := stdout w ++ [(key, vel)] |}
        else Normal w
    | None => Normal w
    end.

(** The [for] statement over the items, in the dictionary's order.
    [time_time k] is the clock reading of the iteration for key [k]. *)
Fixpoint for_items (time_time : Z -> float) (items : list (Z * Centroid))
    (w : world) : outcome :=
  match items with
  | [] => Normal w
  | (key, centroid) :: rest =>
      loop_body (time_time key) key centroid w >>> for_items time_time rest
  end.

(** One frame, from line 92 on: [centoids] is bound to the tracker's
    answer [cs], then the loop runs over its items. *)
Definition observe (time_time : Z -> float) (cs : list (Z * Centroid))
    (w : world) : outcome :=
  for_items time_time cs
    {| velCentroids := velCentroids w; centoids := cs;
       objectID := objectID w; stdout := stdout w |}.

(** The [while True] loop over a finite run of frames, each given by its
    clock and by what [ct.update] returned for it. *)
Fixpoint main_loop (frames : list ((Z -> float) * list (Z * Centroid)))
    (w : world) : outcome :=
  match frames with
  | [] => Normal w
  | (time_time, cs) :: rest => observe time_time cs w >>> main_loop rest
  end.

(** The velocities printed by the iterations for key [id]. *)
Definition readings_for (id : Z) (out : list (Z * float)) : list float :=
  map snd (List.filter (fun e => (fst e =? id)%Z) out).

#[global] Arguments readings_for : simpl never.
#[global] Arguments distance : simpl never.

(** What the gate holds for one identity: its entry in [velCentroids],
    if any, and the velocities printed for it so far. *)
Definition gate_view (id : Z) (w : world) : option float * list float :=
  (velCentroids w !! id, readings_for id (stdout w)).

(** Line 115 raises when an entry's elapsed time is zero at its exit. *)
Definition zero_elapsed (now : float) (centroid : Centroid)
    (entry : option float) : bool :=
  match entry with
  | Some e =>
      ((c0 centroid <? 200)%Z || (600 <? c0 centroid)%Z)
      && PrimFloat.eqb (now - e) 0
  | None => false
  end.

(** No item of the frame leaves the zone with a zero elapsed time. *)
Definition safe_frame (time_time : Z -> float) (items : list (Z * Centroid))
    (w : world) : bool :=
  forallb (fun item =>
             negb (zero_elapsed (time_time (fst item)) (snd item)
                                (velCentroids w !! fst item)))
          items.

(** ** [maskMotion] (lines 7-30) *)

(** An 8-bit single-channel image, row by row. *)
Definition pixels (img : list (list Z)) : list Z := concat img.

(** The two operations that [maskMotion] asks of [cv.morphologyEx]. *)
Inductive morph_op : Type := MORPH_OPEN | MORPH_CLOSE.

(** [cv.threshold(src, thresh, maxval, cv.THRESH_BINARY)], the image it
    returns: [maxval] where the pixel exceeds [thresh], 0 elsewhere. *)
Definition threshold_binary (src : list (list Z)) (thresh maxval : Z)
    : list (list Z) :=
  map (map (fun p => if (thresh <? p)%Z then maxval else 0%Z)) src.

(** [cv.morphologyEx] is taken as a parameter, with its operation, its
    structuring element and its number of iterations. *)
Section MaskMotion.
Variable kernel : Type.
Variable cv_morphologyEx :
  list (list Z) -> morph_op -> kernel -> nat -> list (list Z).

Definition maskMotion (mask : list (list Z)) (minimum : Z) (array : kernel)
    : list (list Z) :=
  let threshold := threshold_binary mask minimum 255 in
  let motionMsk := cv_morphologyEx threshold MORPH_OPEN array 2 in
  let motionMsk := cv_morphologyEx motionMsk MORPH_CLOSE array 2 in
  motionMsk.
End MaskMotion.

(** ** [findContours] (lines 33-55) *)

(** The three OpenCV calls are taken as they are documented:
    [cv.findContours] gives the contours of a frame in some order,
    [cv.contourArea] a float, [cv.boundingRect] the integers x, y, w, h.
    A box is the array [[x, y, x+w, y+h]]; OpenCV's integers are 32-bit,
    so the sums stay far inside the 64-bit range of [astype(int)]. *)
Section FindContours.
Variables frame contour : Type.
Variable cv_findContours : frame -> list contour.
Variable cv_contourArea : contour -> float.
Variable cv_boundingRect : contour -> Z * Z * Z * Z.

(** Lines 51-53 for one contour. *)
Definition box_of (cnt : contour) : list Z :=
  let '(x, y, w, h) := cv_boundingRect cnt in [x; y; x + w; y + h]%Z.

(** Line 50. *)
Definition large_enough (cnt : contour) : bool :=
  PrimFloat.ltb 1000 (cv_contourArea cnt).

(** The loop of lines 49-53, [boxes] being the list built so far. *)
Fixpoint contour_loop (contours : list contour) (boxes : list (list Z))
    : list (list Z) :=
  match contours with
  | [] => boxes
  | cnt :: rest =>
      if large_enough cnt then contour_loop rest (boxes ++ [box_of cnt])
      else contour_loop rest boxes
  end.

Definition findContours (fr : frame) : list (list Z) :=
  contour_loop (cv_findContours fr) [].
End FindContours.

(** A contour given by its points, with the rectangle and the area that
    OpenCV computes for such a polygon: the extent of the coordinates,
    both ends included, and half the absolute shoelace sum. *)
Definition points_rect (pts : list (Z * Z)) : Z * Z * Z * Z :=
  match pts with
  | [] => (0, 0, 0, 0)%Z
  | (x0, y0) :: rest =>
      let xmin := fold_right Z.min x0 (map fst rest) in
      let xmax := fold_right Z.max x0 (map fst rest) in
      let ymin := fold_right Z.min y0 (map snd rest) in
      let ymax := fold_right Z.max y0 (map snd rest) in
      (xmin, ymin, xmax - xmin + 1, ymax - ymin + 1)%Z
  end.

Fixpoint shoelace (first prev : Z * Z) (pts : list (Z * Z)) : Z :=
  match pts with
  | [] => (fst prev * snd first - snd prev * fst first)%Z
  | p :: rest =>
      (fst prev * snd p - snd prev * fst p + shoelace first p rest)%Z
  end.

Definition points_area (pts : list (Z * Z)) : float :=
  match pts with
  | [] => 0%float
  | p :: rest =>
      (PrimFloat.of_uint63 (Uint63.of_Z (Z.abs (shoelace p p rest))) * 0.5)%float
  end.

(** ** The identity tracker

    [CentroidTracker] is imported from [objTrack], which is not among the
    sources at hand; [main] only calls [ct.update(rects)]. *)

(** Modelled from the spec: a BoundingBox, four integers
    (x_min, y_min, x_max, y_max); the source of [objTrack] is missing. *)
Record BoundingBox : Type := mkBox { x_min : Z; y_min : Z; x_max : Z; y_max : Z }.

(** Modelled from the spec: the centroid of a box,
    ((x_min+x_max)/2, (y_min+y_max)/2) with truncating division; the
    source of [objTrack] is missing. *)
Definition centroid_of (b : BoundingBox) : Centroid :=
  mkCentroid ((x_min b + x_max b) `quot` 2) ((y_min b + y_max b) `quot` 2).

(** Modelled from the spec: a TrackedObject with its id, its current
    centroid and the number of consecutive frames without a matching
    detection; the source of [objTrack] is missing. *)
Record TrackedObject : Type := mkObject {
  obj_id : Z;
  obj_centroid : Centroid;
  disappearedCount : nat
}.

#[global] Instance Centroid_eq_dec : EqDecision Centroid.
Proof. solve_decision. Defined.

#[global] Instance TrackedObject_eq_dec : EqDecision TrackedObject.
Proof. solve_decision. Defined.

(** Modelled from the spec: the tracker, that is its registry (id to
    TrackedObject), the next unused id and the configured
    [maxDisappeared]; the source of [objTrack] is missing. *)
Record Tracker : Type := mkTracker {
  registry : gmap Z TrackedObject;
  nextId : Z;
  maxDisappeared : nat
}.

(** Modelled from the spec: a tracker that has seen nothing yet; the
    source of [objTrack] is missing. *)
Definition new_tracker (maxD : nat) : Tracker :=
  {| registry := ∅; nextId := 0; maxDisappeared := maxD |}.

(** Modelled from the spec: registration assigns the next unused id, with
    disappearedCount 0; the source of [objTrack] is missing. *)
Definition register (c : Centroid) (t : Tracker) : Tracker :=
  {| registry := <[nextId t := mkObject (nextId t) c 0]> (registry t);
     nextId := nextId t + 1;
     maxDisappeared := maxDisappeared t |}.

(** Modelled from the spec: deregistration removes the object; the source
    of [objTrack] is missing. *)
Definition deregister (i : Z) (t : Tracker) : Tracker :=
  {| registry := delete i (registry t);
     nextId := nextId t;
     maxDisappeared := maxDisappeared t |}.

(** Modelled from the spec: one more frame without a matching detection
    increments the disappearedCount; the source of [objTrack] is
    missing. *)
Definition age (o : TrackedObject) : TrackedObject :=
  mkObject (obj_id o) (obj_centroid o) (S (disappearedCount o)).

(** Modelled from the spec: an object without a detection in this frame
    has its disappearedCount incremented and is deregistered if the count
    now exceeds [maxDisappeared]; the source of [objTrack] is missing. *)
Definition mark_missing (t : Tracker) (i : Z) : Tracker :=
  match registry t !! i with
  | None => t
  | Some o =>
      if (maxDisappeared t <? disappearedCount (age o))%nat then deregister i t
      else {| registry := <[i := age o]> (registry t);
              nextId := nextId t;
              maxDisappeared := maxDisappeared t |}
  end.

(** Modelled from the spec: a matched object takes the centroid of its
    detection and its disappearedCount is reset to 0; the source of
    [objTrack] is missing. *)
Definition mark_matched (t : Tracker) (i : Z) (c : Centroid) : Tracker :=
  {| registry := alter (fun o => mkObject (obj_id o) c 0) i (registry t);
     nextId := nextId t;
     maxDisappeared := maxDisappeared t |}.

(** Modelled from the spec: the cost of pairing an object with a
    detection is the Euclidean distance of their centroids; only the
    order of the costs is used, which is that of the squared distances
    computed here. The source of [objTrack] is missing. *)
Definition sqdist (a b : Centroid) : Z :=
  (c0 a - c0 b) * (c0 a - c0 b) + (c1 a - c1 b) * (c1 a - c1 b).

(** Modelled from the spec: a cell of the cost matrix, whose row is an
    existing object (id, centroid) and whose column is an input centroid
    with its index; the source of [objTrack] is missing. *)
Definition candidate : Type := (Z * Centroid) * (nat * Centroid).

(** Modelled from the spec: the smaller distance wins; of equal
    distances, the lower object id, then the lower input index. The
    source of [objTrack] is missing. *)
Definition better (a b : candidate) : bool :=
  let da := sqdist (snd (fst a)) (snd (snd a)) in
  let db := sqdist (snd (fst b)) (snd (snd b)) in
  (da <? db)%Z
  || ((da =? db)%Z
      && ((fst (fst a) <? fst (fst b))%Z
          || ((fst (fst a) =? fst (fst b))%Z
              && (fst (snd a) <? fst (snd b))%nat))).

(** Modelled from the spec: the globally best of the remaining cells, if
    any is left; the source of [objTrack] is missing. *)
Definition pick (cands : list candidate) : option candidate :=
  foldr (fun a best =>
           match best with
           | None => Some a
           | Some b => if better a b then Some a else Some b
           end) None cands.

(** Modelled from the spec: the cells of the matrix of the remaining rows
    and columns; the source of [objTrack] is missing. *)
Definition candidates (rows : list (Z * Centroid)) (cols : list (nat * Centroid))
    : list candidate :=
  flat_map (fun r => map (fun c => (r, c)) cols) rows.

(** Modelled from the spec: greedy nearest-neighbour matching, which
    selects the globally smallest remaining distance, pairs that row and
    column and removes both, until the rows or the columns run out. Each
    round removes a row, so [length rows] rounds are enough. The source of
    [objTrack] is missing. *)
Fixpoint greedy (rounds : nat) (rows : list (Z * Centroid))
    (cols : list (nat * Centroid)) : list candidate :=
  match rounds with
  | O => []
  | S n =>
      match pick (candidates rows cols) with
      | None => []
      | Some (r, c) =>
          (r, c) :: greedy n (filter (fun r' => fst r' <> fst r) rows)
                             (filter (fun c' => fst c' <> fst c) cols)
      end
  end.

(** Modelled from the spec: the rows are the registered objects, the
    columns the input centroids in their order; the source of [objTrack]
    is missing. *)
Definition rows_of (t : Tracker) : list (Z * Centroid) :=
  map (fun kv => (fst kv, obj_centroid (snd kv))) (map_to_list (registry t)).

Definition cols_of (inputCentroids : list Centroid) : list (nat * Centroid) :=
  imap (fun j c => (j, c)) inputCentroids.

(** Modelled from the spec: the matched pairs of one frame; the source of
    [objTrack] is missing. *)
Definition matching (t : Tracker) (boxes : list BoundingBox) : list candidate :=
  greedy (length (rows_of t)) (rows_of t) (cols_of (map centroid_of boxes)).

(** Modelled from the spec: the mapping that [update] returns, every
    registered id with its current centroid; the source of [objTrack] is
    missing. *)
Definition mapping (t : Tracker) : gmap Z Centroid := obj_centroid <$> registry t.

(** Modelled from the spec: registering a list of centroids in order,
    which gives the new state and the ids that were assigned, oldest
    first; the source of [objTrack] is missing. *)
Fixpoint register_all (t : Tracker) (cs : list Centroid) : Tracker * list Z :=
  match cs with
  | [] => (t, [])
  | c :: rest =>
      let (t', ids) := register_all (register c t) rest in
      (t', nextId t :: ids)
  end.

(** Modelled from the spec: the operation [update] of section 4.1, steps
    1 to 4 in their order, giving the new state and the ids assigned to
    the objects registered by this call; the source of [objTrack] is
    missing. *)
Definition update_state (t : Tracker) (boxes : list BoundingBox)
    : Tracker * list Z :=
  let inputCentroids := map centroid_of boxes in
  if bool_decide (registry t = ∅) && negb (bool_decide (inputCentroids = []))
  then register_all t inputCentroids
  else if bool_decide (inputCentroids = [])
  then (foldl mark_missing t (map fst (rows_of t)), [])
  else
    let pairs := matching t boxes in
    let matched_rows := map (fun p => fst (fst p)) pairs in
    let matched_cols := map (fun p => fst (snd p)) pairs in
    let t1 := foldl (fun t p => mark_matched t (fst (fst p)) (snd (snd p)))
                    t pairs in
    let t2 := foldl mark_missing t1
                    (filter (fun i => i ∉ matched_rows) (map fst (rows_of t))) in
    register_all t2
      (map snd (filter (fun c => fst c ∉ matched_cols) (cols_of inputCentroids))).

(** Modelled from the spec: step 5, [update] returns the mapping of the
    registered ids to their centroids; the source of [objTrack] is
    missing. *)
Definition update (t : Tracker) (boxes : list BoundingBox)
    : Tracker * gmap Z Centroid :=
  let t' := fst (update_state t boxes) in (t', mapping t').

(** Modelled from the spec: a sequence of [update] calls on one tracker,
    with the state reached and all the ids assigned on the way, oldest
    first; the source of [objTrack] is missing. *)
Fixpoint run_ids (t : Tracker) (frames : list (list BoundingBox))
    : Tracker * list Z :=
  match frames with
  | [] => (t, [])
  | boxes :: rest =>
      let (t', ids) := run_ids (fst (update t boxes)) rest in
      (t', snd (update_state t boxes) ++ ids)
  end.

Definition run (t : Tracker) (frames : list (list BoundingBox)) : Tracker :=
  fst (run_ids t frames).

Definition assigned (t : Tracker) (frames : list (list BoundingBox)) : list Z :=
  snd (run_ids t frames).

(** The object [i] gets no detection in any of the frames, one after the
    other from the state [t] on. *)
Fixpoint missing_through (i : Z) (t : Tracker) (frames : list (list BoundingBox))
    : Prop :=
  match frames with
  | [] => True
  | boxes :: rest =>
      (i ∉ map (fun p => fst (fst p)) (matching t boxes))
      /\ missing_through i (fst (update t boxes)) rest
  end.

(** Every id in the registry is below the next unused id. *)
Definition ids_below_next (t : Tracker) : Prop :=
  forall i, i ∈ dom (registry t) -> (i < nextId t)%Z.

(** No registered object has been missing for more than [maxDisappeared]
    frames. *)
Definition counts_within (t : Tracker) : Prop :=
  forall i o, registry t !! i = Some o ->
              (disappearedCount o <= maxDisappeared t)%nat.

(** From [t] to [t'], with the ids [ids] assigned on the way: the counter
    did not go back, the ids are increasing and are counter values of the
    meantime, and whatever is registered in [t'] was registered in [t] or
    is one of them. *)
Definition grows (t t' : Tracker) (ids : list Z) : Prop :=
  (nextId t <= nextId t')%Z /\
  maxDisappeared t' = maxDisappeared t /\
  StronglySorted Z.lt ids /\
  Forall (fun i => (nextId t <= i < nextId t')%Z) ids /\
  (forall j, j ∈ dom (registry t') -> j ∈ dom (registry t) \/ j ∈ ids).

(** What a frame without a detection makes of an object. *)
Definition aged (maxD : nat) (o : TrackedObject) : option TrackedObject :=
  if (maxD <? disappearedCount (age o))%nat then None else Some (age o).

(** ** One turn of the [while] loop, lines 92-121

    The tracker is asked for the centroids of the frame's boxes and the
    loop runs over the items of its answer. The order in which a
    dictionary hands out its items is not part of the tracker's
    description; what is proved of the loop holds for every order of
    distinct keys. *)
Definition main_iteration (time_time : Z -> float) (rects : list BoundingBox)
    (ct : Tracker) (w : world) : Tracker * outcome :=
  let (ct', cs) := update ct rects in
  (ct', observe time_time (map_to_list cs) w).

(** ** The cases of one iteration *)

Section LoopBody.
Variables (now : float) (key : Z) (centroid : Centroid) (w : world).

Lemma loop_body_enter :
  (200 < c0 centroid < 600)%Z ->
  velCentroids w !! key = None ->
  loop_body now key centroid w =
    Normal {| velCentroids := <[key := now]> (velCentroids w);
              centoids := centoids w;
              objectID := Some (PyInt key); stdout := stdout w |}.
Proof.
  intros [Hl Hr] Hnone. unfold loop_body. cbn.
  apply Z.ltb_lt in Hl, Hr. rewrite Hl, Hr, Hnone. reflexivity.
Qed.

Lemma loop_body_inside entry :
  (200 < c0 centroid < 600)%Z ->
  velCentroids w !! key = Some entry ->
  loop_body now key centroid w = Normal (set_objectID (PyInt key) w).
Proof.
  intros [Hl Hr] Hsome. unfold loop_body. cbn.
  apply Z.ltb_lt in Hl, Hr. rewrite Hl, Hr, Hsome. reflexivity.
Qed.

Lemma loop_body_unseen :
  ~ (200 < c0 centroid < 600)%Z ->
  velCentroids w !! key = None ->
  loop_body now key centroid w = Normal (set_objectID (PyInt key) w).
Proof.
  intros Hout Hnone. unfold loop_body. cbn. rewrite Hnone.
  destruct (200 <? c0 centroid)%Z eqn:Hl, (c0 centroid <? 600)%Z eqn:Hr;
    cbn; try reflexivity.
  apply Z.ltb_lt in Hl, Hr. lia.
Qed.

Lemma loop_body_boundary :
  (c0 centroid = 200 \/ c0 centroid = 600)%Z ->
  loop_body now key centroid w = Normal (set_objectID (PyInt key) w).
Proof.
  intros Hb. unfold loop_body. cbn.
  destruct Hb as [-> | ->]; cbn; destruct (velCentroids w !! key); reflexivity.
Qed.

Lemma loop_body_exit entry :
  (c0 centroid < 200 \/ 600 < c0 centroid)%Z ->
  velCentroids w !! key = Some entry ->
  PrimFloat.eqb (now - entry) 0 = false ->
  loop_body now key centroid w =
    Normal {| velCentroids := delete key (velCentroids w);
              centoids := centoids w;
              objectID := Some (PyFloat (distance / (now - entry) * 3600));
              stdout := stdout w
                          ++ [(key, (distance / (now - entry) * 3600)%float)] |}.
Proof.
  intros Hout Hsome Hnz. unfold loop_body. cbn. rewrite Hsome, Hnz.
  destruct Hout as [Hlo | Hhi].
  - assert ((200 <? c0 centroid)%Z = false) as -> by (apply Z.ltb_ge; lia).
    assert ((c0 centroid <? 200)%Z = true) as -> by (apply Z.ltb_lt; lia).
    reflexivity.
  - assert ((c0 centroid <? 600)%Z = false) as -> by (apply Z.ltb_ge; lia).
    assert ((600 <? c0 centroid)%Z = true) as -> by (apply Z.ltb_lt; lia).
    rewrite andb_false_r, orb_true_r. reflexivity.
Qed.

Lemma loop_body_zero entry :
  (c0 centroid < 200 \/ 600 < c0 centroid)%Z ->
  velCentroids w !! key = Some entry ->
  PrimFloat.eqb (now - entry) 0 = true ->
  loop_body now key centroid w = ZeroDivisionError (set_objectID (PyInt key) w).
Proof.
  intros Hout Hsome Hz. unfold loop_body. cbn. rewrite Hsome, Hz.
  destruct Hout as [Hlo | Hhi].
  - assert ((200 <? c0 centroid)%Z = false) as -> by (apply Z.ltb_ge; lia).
    assert ((c0 centroid <? 200)%Z = true) as -> by (apply Z.ltb_lt; lia).
    reflexivity.
  - assert ((c0 centroid <? 600)%Z = false) as -> by (apply Z.ltb_ge; lia).
    assert ((600 <? c0 centroid)%Z = true) as -> by (apply Z.ltb_lt; lia).
    rewrite andb_false_r, orb_true_r. reflexivity.
Qed.
End LoopBody.

(** ** What an iteration does to the other identities *)

Lemma readings_for_app (id : Z) (l1 l2 : list (Z * float)) :
  readings_for id (l1 ++ l2) = readings_for id l1 ++ readings_for id l2.
Proof. unfold readings_for. rewrite List.filter_app, map_app. reflexivity. Qed.

Lemma readings_for_own (id : Z) (v : float) : readings_for id [(id, v)] = [v].
Proof. unfold readings_for. cbn. rewrite Z.eqb_refl. reflexivity. Qed.

Lemma readings_for_foreign (id key : Z) (v : float) :
  key <> id -> readings_for id [(key, v)] = [].
Proof.
  intros Hne. unfold readings_for. cbn.
  apply Z.eqb_neq in Hne. rewrite Hne. reflexivity.
Qed.

Lemma loop_body_other (now : float) (key : Z) (centroid : Centroid)
    (w : world) (id : Z) :
  key <> id ->
  gate_view id (world_of (loop_body now key centroid w)) = gate_view id w.
Proof.
  intros Hne. unfold loop_body, gate_view. cbn.
  destruct ((200 <? c0 centroid)%Z && (c0 centroid <? 600)%Z);
    destruct (velCentroids w !! key) as [entry|]; cbn; try reflexivity.
  - rewrite lookup_insert_ne by exact Hne. reflexivity.
  - destruct ((c0 centroid <? 200)%Z || (600 <? c0 centroid)%Z);
      [destruct (PrimFloat.eqb (now - entry) 0)|]; cbn; try reflexivity.
    rewrite lookup_delete_ne by exact Hne.
    rewrite readings_for_app, readings_for_foreign by exact Hne.
    rewrite app_nil_r. reflexivity.
Qed.

Lemma loop_body_centoids (now : float) (key : Z) (centroid : Centroid)
    (w : world) :
  centoids (world_of (loop_body now key centroid w)) = centoids w.
Proof.
  unfold loop_body. cbn.
  destruct ((200 <? c0 centroid)%Z && (c0 centroid <? 600)%Z);
    destruct (velCentroids w !! key) as [entry|]; cbn; try reflexivity.
  destruct ((c0 centroid <? 200)%Z || (600 <? c0 centroid)%Z);
    [destruct (PrimFloat.eqb (now - entry) 0)|]; reflexivity.
Qed.

Lemma for_items_app (time_time : Z -> float) (l1 l2 : list (Z * Centroid))
    (w : world) :
  for_items time_time (l1 ++ l2) w
  = for_items time_time l1 w >>> for_items time_time l2.
Proof.
  revert w. induction l1 as [|[key centroid] l1 IH]; intros w; cbn.
  - reflexivity.
  - destruct (loop_body (time_time key) key centroid w) as [w1|w1]; cbn.
    + apply IH.
    + reflexivity.
Qed.

Lemma for_items_absent (time_time : Z -> float) (items : list (Z * Centroid))
    (w : world) (id : Z) :
  id ∉ items.*1 ->
  gate_view id (world_of (for_items time_time items w)) = gate_view id w.
Proof.
  revert w. induction items as [|[key centroid] rest IH]; intros w Hnot; cbn.
  - reflexivity.
  - cbn in Hnot. apply not_elem_of_cons in Hnot as [Hne Hrest].
    pose proof (loop_body_other (time_time key) key centroid w id
                  (not_eq_sym Hne)) as Hstep.
    destruct (loop_body (time_time key) key centroid w) as [w1|w1]; cbn in *.
    + rewrite IH by exact Hrest. exact Hstep.
    + exact Hstep.
Qed.

(** The items of a dictionary have distinct keys: an item can be singled
    out, with the key absent before and after it. *)
Lemma items_split (items : list (Z * Centroid)) (id : Z) (c : Centroid) :
  NoDup items.*1 -> (id, c) ∈ items ->
  exists pre post,
    items = pre ++ (id, c) :: post /\ (id ∉ pre.*1) /\ (id ∉ post.*1).
Proof.
  intros Hnd Hin. apply list_elem_of_split in Hin as (pre & post & ->).
  exists pre, post. split; [reflexivity|].
  rewrite fmap_app, fmap_cons in Hnd. cbn in Hnd.
  apply NoDup_app in Hnd as (_ & Hpre & Hpost).
  apply NoDup_cons in Hpost as [Hpost _].
  split; [|exact Hpost].
  intros Hin. apply (Hpre id Hin). left.
Qed.

(** Whether a frame is safe depends on the entries of its own keys only. *)
Lemma safe_frame_ext (time_time : Z -> float) (items : list (Z * Centroid))
    (w w' : world) :
  (forall key, key ∈ items.*1 -> velCentroids w' !! key = velCentroids w !! key) ->
  safe_frame time_time items w' = safe_frame time_time items w.
Proof.
  intros Hsame. unfold safe_frame.
  induction items as [|[key centroid] rest IH]; cbn.
  - reflexivity.
  - rewrite Hsame by (cbn; left). f_equal. apply IH.
    intros k Hk. apply Hsame. cbn. right. exact Hk.
Qed.

Lemma loop_body_safe (now : float) (key : Z) (centroid : Centroid) (w : world) :
  zero_elapsed now centroid (velCentroids w !! key) = false ->
  exists w', loop_body now key centroid w = Normal w'.
Proof.
  unfold zero_elapsed, loop_body. cbn. intros Hsafe.
  destruct ((200 <? c0 centroid)%Z && (c0 centroid <? 600)%Z);
    destruct (velCentroids w !! key) as [entry|]; eauto.
  destruct ((c0 centroid <? 200)%Z || (600 <? c0 centroid)%Z); cbn in Hsafe;
    [rewrite Hsafe|]; eauto.
Qed.

(** A safe frame over distinct keys runs through. *)
Lemma for_items_completes (time_time : Z -> float)
    (items : list (Z * Centroid)) (w : world) :
  NoDup items.*1 -> safe_frame time_time items w = true ->
  exists w', for_items time_time items w = Normal w'.
Proof.
  revert w. induction items as [|[key centroid] rest IH]; intros w Hnd Hsafe.
  - exists w. reflexivity.
  - cbn in Hnd. apply NoDup_cons in Hnd as [Hfresh Hnd].
    cbn in Hsafe. apply andb_true_iff in Hsafe as [Hhere Hrest].
    apply negb_true_iff in Hhere.
    destruct (loop_body_safe _ _ _ _ Hhere) as [w1 Hw1].
    cbn. rewrite Hw1. cbn. apply IH; [exact Hnd|].
    rewrite <- Hrest. apply safe_frame_ext. intros k Hk.
    assert (key <> k) as Hne by (intros ->; contradiction).
    pose proof (loop_body_other (time_time key) key centroid w k Hne) as Hv.
    rewrite Hw1 in Hv. cbn in Hv. unfold gate_view in Hv. congruence.
Qed.

(** In a frame that runs through, what happens to an identity is what its
    own iteration does. *)
Lemma for_items_at (time_time : Z -> float) (items : list (Z * Centroid))
    (w w' : world) (id : Z) (c : Centroid) :
  NoDup items.*1 -> (id, c) ∈ items ->
  for_items time_time items w = Normal w' ->
  exists w1 w2,
    gate_view id w1 = gate_view id w /\
    loop_body (time_time id) id c w1 = Normal w2 /\
    gate_view id w' = gate_view id w2.
Proof.
  intros Hnd Hin Hrun.
  destruct (items_split items id c Hnd Hin) as (pre & post & -> & Hpre & Hpost).
  rewrite for_items_app in Hrun.
  pose proof (for_items_absent time_time pre w id Hpre) as Hv1.
  destruct (for_items time_time pre w) as [w1|w1]; cbn in Hrun; [|discriminate].
  cbn in Hv1.
  destruct (loop_body (time_time id) id c w1) as [w2|w2] eqn:Hbody;
    cbn in Hrun; [|discriminate].
  exists w1, w2. split; [exact Hv1|]. split; [exact Hbody|].
  pose proof (for_items_absent time_time post w2 id Hpost) as Hv2.
  rewrite Hrun in Hv2. exact Hv2.
Qed.

(** In any frame, finished or cut short by line 115, an identity is left
    as it was or as its own iteration leaves it. *)
Lemma for_items_reach (time_time : Z -> float) (items : list (Z * Centroid))
    (w : world) (id : Z) (c : Centroid) :
  NoDup items.*1 -> (id, c) ∈ items ->
  gate_view id (world_of (for_items time_time items w)) = gate_view id w \/
  exists w1,
    gate_view id w1 = gate_view id w /\
    gate_view id (world_of (for_items time_time items w))
    = gate_view id (world_of (loop_body (time_time id) id c w1)).
Proof.
  intros Hnd Hin.
  destruct (items_split items id c Hnd Hin) as (pre & post & -> & Hpre & Hpost).
  rewrite for_items_app.
  pose proof (for_items_absent time_time pre w id Hpre) as Hv1.
  destruct (for_items time_time pre w) as [w1|w1]; cbn in Hv1 |- *.
  - right. exists w1. split; [exact Hv1|].
    destruct (loop_body (time_time id) id c w1) as [w2|w2]; cbn.
    + apply for_items_absent. exact Hpost.
    + reflexivity.
  - left. exact Hv1.
Qed.

Lemma observe_view (w : world) (cs : list (Z * Centroid)) (id : Z) :
  gate_view id {| velCentroids := velCentroids w; centoids := cs;
                  objectID := objectID w; stdout := stdout w |}
  = gate_view id w.
Proof. reflexivity. Qed.

(** ** One frame, seen from one identity *)

Section Frame.
Variables (time_time : Z -> float) (items : list (Z * Centroid)).
Variables (w w' : world) (id : Z) (c : Centroid).
Hypothesis Hkeys : NoDup items.*1.
Hypothesis Hitem : (id, c) ∈ items.
Hypothesis Hrun : observe time_time items w = Normal w'.

Lemma observe_exit (entry : float) :
  velCentroids w !! id = Some entry ->
  (c0 c < 200 \/ 600 < c0 c)%Z ->
  gate_view id w'
  = (None, readings_for id (stdout w)
             ++ [(distance / (time_time id - entry) * 3600)%float]).
Proof using Hkeys Hitem Hrun.
  intros Hentry Hout.
  destruct (for_items_at _ _ _ _ _ _ Hkeys Hitem Hrun)
    as (w1 & w2 & Hv1 & Hbody & Hv2).
  rewrite observe_view in Hv1. injection Hv1 as Hlook Hread.
  rewrite Hentry in Hlook.
  destruct (PrimFloat.eqb (time_time id - entry) 0) eqn:Hz.
  - rewrite (loop_body_zero _ _ _ _ entry Hout Hlook Hz) in Hbody.
    discriminate.
  - rewrite (loop_body_exit _ _ _ _ entry Hout Hlook Hz) in Hbody.
    injection Hbody as <-. rewrite Hv2. unfold gate_view. cbn.
    rewrite lookup_delete_eq, readings_for_app, readings_for_own, Hread.
    reflexivity.
Qed.

Lemma observe_enter :
  velCentroids w !! id = None ->
  (200 < c0 c < 600)%Z ->
  gate_view id w' = (Some (time_time id), readings_for id (stdout w)).
Proof using Hkeys Hitem Hrun.
  intros Hnone Hin.
  destruct (for_items_at _ _ _ _ _ _ Hkeys Hitem Hrun)
    as (w1 & w2 & Hv1 & Hbody & Hv2).
  rewrite observe_view in Hv1. injection Hv1 as Hlook Hread.
  rewrite Hnone in Hlook.
  rewrite (loop_body_enter _ _ _ _ Hin Hlook) in Hbody.
  injection Hbody as <-. rewrite Hv2. unfold gate_view. cbn.
  rewrite lookup_insert_eq, Hread. reflexivity.
Qed.

Lemma observe_unseen :
  velCentroids w !! id = None ->
  ~ (200 < c0 c < 600)%Z ->
  gate_view id w' = (None, readings_for id (stdout w)).
Proof using Hkeys Hitem Hrun.
  intros Hnone Hout.
  destruct (for_items_at _ _ _ _ _ _ Hkeys Hitem Hrun)
    as (w1 & w2 & Hv1 & Hbody & Hv2).
  rewrite observe_view in Hv1. injection Hv1 as Hlook Hread.
  rewrite Hnone in Hlook.
  rewrite (loop_body_unseen _ _ _ _ Hout Hlook) in Hbody.
  injection Hbody as <-. rewrite Hv2. unfold gate_view. cbn.
  rewrite Hlook, Hread. reflexivity.
Qed.
End Frame.

Lemma observe_absent (time_time : Z -> float) (items : list (Z * Centroid))
    (w : world) (id : Z) :
  id ∉ items.*1 ->
  gate_view id (world_of (observe time_time items w)) = gate_view id w.
Proof.
  intros Habs. unfold observe. rewrite for_items_absent by exact Habs.
  apply observe_view.
Qed.

Lemma for_items_centoids (time_time : Z -> float)
    (items : list (Z * Centroid)) (w : world) :
  centoids (world_of (for_items time_time items w)) = centoids w.
Proof.
  revert w. induction items as [|[key centroid] rest IH]; intros w; cbn.
  - reflexivity.
  - pose proof (loop_body_centoids (time_time key) key centroid w) as Hstep.
    destruct (loop_body (time_time key) key centroid w) as [w1|w1]; cbn in *.
    + rewrite IH. exact Hstep.
    + exact Hstep.
Qed.

(** The loop never writes to the dictionary it runs over. *)
Lemma observe_centoids (time_time : Z -> float) (cs : list (Z * Centroid))
    (w : world) :
  centoids (world_of (observe time_time cs w)) = cs.
Proof. unfold observe. rewrite for_items_centoids. reflexivity. Qed.

Lemma observe_completes (time_time : Z -> float)
    (items : list (Z * Centroid)) (w : world) :
  NoDup items.*1 -> safe_frame time_time items w = true ->
  exists w', observe time_time items w = Normal w'.
Proof.
  intros Hnd Hsafe. unfold observe. apply for_items_completes; [exact Hnd|].
  rewrite <- Hsafe. apply safe_frame_ext. reflexivity.
Qed.

(** ** The transitions of the gate *)

(** C1, as the code has it. When an identity with an entry is observed
    strictly outside the zone (x < 200 or x > 600) in a frame none of
    whose exits has a zero elapsed time, the frame prints exactly one
    more velocity for it, distance / (now - entry) * 3600, and its entry
    is gone afterwards. *)
Theorem exit_emits_reading (time_time : Z -> float)
    (items : list (Z * Centroid)) (w : world) (id : Z) (c : Centroid)
    (entry : float) :
  NoDup items.*1 ->
  (id, c) ∈ items ->
  velCentroids w !! id = Some entry ->
  (c0 c < 200 \/ 600 < c0 c)%Z ->
  safe_frame time_time items w = true ->
  exists w',
    observe time_time items w = Normal w' /\
    readings_for id (stdout w')
    = readings_for id (stdout w)
        ++ [(distance / (time_time id - entry) * 3600)%float] /\
    velCentroids w' !! id = None.
Proof.
  intros Hnd Hin Hentry Hout Hsafe.
  destruct (observe_completes _ _ _ Hnd Hsafe) as [w' Hrun].
  exists w'. split; [exact Hrun|].
  pose proof (observe_exit _ _ _ _ _ _ Hnd Hin Hrun entry Hentry Hout) as Hv.
  injection Hv as Hlook Hread. split; assumption.
Qed.

(** X10. For an identity without an entry: after a frame, finished or
    not, it has an entry only if the frame holds a centroid for it with
    200 < x < 600, and the entry is then the clock reading of its
    iteration; and a frame that holds such a centroid and none of whose
    exits has a zero elapsed time runs through and leaves it with that
    entry. *)
Theorem entry_created_iff_inside (time_time : Z -> float)
    (items : list (Z * Centroid)) (w : world) (id : Z) :
  NoDup items.*1 ->
  velCentroids w !! id = None ->
  (forall e,
     velCentroids (world_of (observe time_time items w)) !! id = Some e ->
     e = time_time id /\ exists c, (id, c) ∈ items /\ (200 < c0 c < 600)%Z) /\
  (safe_frame time_time items w = true ->
   exists w',
     observe time_time items w = Normal w' /\
     forall c, (id, c) ∈ items -> (200 < c0 c < 600)%Z ->
               velCentroids w' !! id = Some (time_time id)).
Proof.
  intros Hnd Hnone. split.
  - intros e He.
    destruct (decide (id ∈ items.*1)) as [Hmem | Habs].
    + apply list_elem_of_fmap in Hmem as ([k c] & Hk & Hin). cbn in Hk. subst k.
      unfold observe in He.
      destruct (for_items_reach time_time items
                  {| velCentroids := velCentroids w; centoids := items;
                     objectID := objectID w; stdout := stdout w |}
                  id c Hnd Hin) as [Hv | (w1 & Hv1 & Hv)];
        rewrite observe_view in *.
      * injection Hv as Hlook _. congruence.
      * injection Hv1 as Hlook1 _. rewrite Hnone in Hlook1.
        injection Hv as Hlook _. rewrite Hlook in He.
        destruct (decide (200 < c0 c < 600)%Z) as [Hzone | Hout].
        -- rewrite (loop_body_enter _ _ _ _ Hzone Hlook1) in He. cbn in He.
           rewrite lookup_insert_eq in He. injection He as <-. eauto.
        -- rewrite (loop_body_unseen _ _ _ _ Hout Hlook1) in He. cbn in He.
           congruence.
    + pose proof (observe_absent time_time items w id Habs) as Hv.
      injection Hv as Hlook _. congruence.
  - intros Hsafe.
    destruct (observe_completes _ _ _ Hnd Hsafe) as [w' Hrun].
    exists w'. split; [exact Hrun|]. intros c Hin Hzone.
    pose proof (observe_enter _ _ _ _ _ _ Hnd Hin Hrun Hnone Hzone) as Hv.
    injection Hv as Hlook _. exact Hlook.
Qed.

Lemma entry_created_iff_inside_witness :
  (forall e,
     velCentroids (world_of (observe (fun _ => 5%float)
                               [(2%Z, mkCentroid 300 10)] initial)) !! 2%Z
     = Some e ->
     e = 5%float /\
     exists c, (2%Z, c) ∈ [(2%Z, mkCentroid 300 10)] /\ (200 < c0 c < 600)%Z) /\
  exists w',
    observe (fun _ => 5%float) [(2%Z, mkCentroid 300 10)] initial = Normal w' /\
    velCentroids w' !! 2%Z = Some 5%float.
Proof.
  destruct (entry_created_iff_inside (fun _ => 5%float)
              [(2%Z, mkCentroid 300 10)] initial 2) as [Honly Hif].
  - cbn. apply NoDup_singleton.
  - reflexivity.
  - split; [exact Honly|].
    destruct (Hif eq_refl) as (w' & Hrun & Hentry).
    exists w'. split; [exact Hrun|].
    apply (Hentry (mkCentroid 300 10)); [left|cbn; lia].
Defined.

(** C2. The division of line 115 is not guarded against a zero elapsed
    time. In a frame that holds identity 7, strictly outside at a clock
    reading equal to its entry time, before identity 2, which has no entry
    and is inside the zone, the loop is ended by [ZeroDivisionError] in
    the iteration for 7: the iteration for 2 never runs and 2 is left
    without an entry, although the call supplied a centroid for it with
    200 < x < 600. *)
Theorem inside_sighting_lost_to_zero_elapsed :
  let w := {| velCentroids := {[ 7%Z := 1%float ]}; centoids := [];
              objectID := None; stdout := [] |} in
  let items := [(7%Z, mkCentroid 650 80); (2%Z, mkCentroid 300 10)] in
  velCentroids w !! 2%Z = None /\
  (2%Z, mkCentroid 300 10) ∈ items /\
  (200 < c0 (mkCentroid 300 10) < 600)%Z /\
  exists w',
    observe (fun _ => 1%float) items w = ZeroDivisionError w' /\
    velCentroids w' !! 2%Z = None.
Proof.
  cbn zeta. split; [reflexivity|]. split; [right; left|]. split; [cbn; lia|].
  eexists. split; reflexivity.
Qed.

(** The bound itself is neither inside nor outside: an identity with an
    entry that is observed at x = 200 prints nothing and keeps its entry. *)
Lemma exit_on_bound_is_silent :
  let w := {| velCentroids := {[ 7%Z := 1%float ]}; centoids := [];
              objectID := None; stdout := [] |} in
  let c := mkCentroid 200 80 in
  velCentroids w !! 7%Z = Some 1%float /\
  (c0 c <= 200 \/ 600 <= c0 c)%Z /\
  exists w',
    observe (fun _ => 3%float) [(7%Z, c)] w = Normal w' /\
    readings_for 7 (stdout w') = readings_for 7 (stdout w) /\
    velCentroids w' !! 7%Z = Some 1%float.
Proof.
  cbn zeta. split; [reflexivity|]. split; [cbn; lia|].
  eexists. split; [reflexivity|]. split; reflexivity.
Qed.

(** An exit whose clock reading equals the entry time divides by zero:
    line 115 raises and nothing is printed. *)
Example exit_with_zero_elapsed_raises :
  let w := {| velCentroids := {[ 7%Z := 1%float ]}; centoids := [];
              objectID := None; stdout := [] |} in
  exists w',
    observe (fun _ => 1%float) [(7%Z, mkCentroid 650 80)] w
    = ZeroDivisionError w' /\ stdout w' = [].
Proof. cbn zeta. eexists. split; reflexivity. Qed.

Lemma exit_emits_reading_witness :
  exists w',
    observe (fun _ => 3%float) [(7%Z, mkCentroid 650 80)]
      {| velCentroids := {[ 7%Z := 1%float ]}; centoids := [];
         objectID := None; stdout := [] |} = Normal w' /\
    readings_for 7 (stdout w')
    = readings_for 7 [] ++ [(distance / (3 - 1) * 3600)%float] /\
    velCentroids w' !! 7%Z = None.
Proof.
  apply (exit_emits_reading (fun _ => 3%float) [(7%Z, mkCentroid 650 80)]
           {| velCentroids := {[ 7%Z := 1%float ]}; centoids := [];
              objectID := None; stdout := [] |} 7 (mkCentroid 650 80) 1%float).
  - cbn. apply NoDup_singleton.
  - apply list_elem_of_singleton. reflexivity.
  - reflexivity.
  - cbn. lia.
  - reflexivity.
Defined.

(** ** Runs of frames *)

Lemma for_items_outside (time_time : Z -> float) (items : list (Z * Centroid))
    (w : world) (id : Z) :
  velCentroids w !! id = None ->
  (forall c, (id, c) ∈ items -> ~ (200 < c0 c < 600)%Z) ->
  gate_view id (world_of (for_items time_time items w))
  = (None, readings_for id (stdout w)).
Proof.
  revert w. induction items as [|[key centroid] rest IH]; intros w Hnone Hout.
  - cbn. unfold gate_view. rewrite Hnone. reflexivity.
  - assert (Hstep : gate_view id
                      (world_of (loop_body (time_time key) key centroid w))
                    = gate_view id w).
    { destruct (decide (key = id)) as [-> | Hne].
      - rewrite loop_body_unseen; [reflexivity| |exact Hnone].
        apply Hout. left.
      - apply loop_body_other. exact Hne. }
    assert (Hrest : forall c, (id, c) ∈ rest -> ~ (200 < c0 c < 600)%Z).
    { intros c Hc. apply Hout. right. exact Hc. }
    cbn [for_items].
    destruct (loop_body (time_time key) key centroid w) as [w1|w1];
      cbn in Hstep |- *; injection Hstep as Hlook Hread.
    + rewrite IH; [rewrite Hread; reflexivity| |exact Hrest]. congruence.
    + unfold gate_view. rewrite Hlook, Hread, Hnone. reflexivity.
Qed.

(** C4. An identity without an entry whose centroids, in every frame of a
    run, lie outside the open interval (200, 600) has no entry at the end
    of the run, however long, and nothing has been printed for it. *)
Theorem outside_never_enters
    (frames : list ((Z -> float) * list (Z * Centroid))) (w : world) (id : Z) :
  velCentroids w !! id = None ->
  (forall time_time cs c,
     (time_time, cs) ∈ frames -> (id, c) ∈ cs ->
     (c0 c <= 200 \/ 600 <= c0 c)%Z) ->
  velCentroids (world_of (main_loop frames w)) !! id = None /\
  readings_for id (stdout (world_of (main_loop frames w)))
  = readings_for id (stdout w).
Proof.
  revert w. induction frames as [|[time_time cs] rest IH]; intros w Hnone Hout.
  - cbn. split; [exact Hnone|reflexivity].
  - assert (Hv : gate_view id (world_of (observe time_time cs w))
                 = (None, readings_for id (stdout w))).
    { unfold observe. rewrite for_items_outside; [reflexivity|exact Hnone|].
      intros c Hc. specialize (Hout time_time cs c). 
      assert ((time_time, cs) ∈ (time_time, cs) :: rest) as Hhead by left.
      specialize (Hout Hhead Hc). lia. }
    cbn [main_loop].
    destruct (observe time_time cs w) as [w1|w1]; cbn in Hv |- *;
      injection Hv as Hlook Hread.
    + rewrite <- Hread. apply IH; [exact Hlook|].
      intros tt' cs' c Hf Hc. apply (Hout tt' cs' c); [right; exact Hf|exact Hc].
    + split; assumption.
Qed.

Lemma outside_never_enters_witness :
  velCentroids (world_of (main_loop
     [(fun _ => 1%float, [(3%Z, mkCentroid 150 9)]);
      (fun _ => 2%float, [(3%Z, mkCentroid 600 9)])] initial)) !! 3%Z = None /\
  readings_for 3 (stdout (world_of (main_loop
     [(fun _ => 1%float, [(3%Z, mkCentroid 150 9)]);
      (fun _ => 2%float, [(3%Z, mkCentroid 600 9)])] initial)))
  = readings_for 3 (stdout initial).
Proof.
  apply (outside_never_enters
           [(fun _ => 1%float, [(3%Z, mkCentroid 150 9)]);
            (fun _ => 2%float, [(3%Z, mkCentroid 600 9)])] initial 3).
  - reflexivity.
  - intros time_time cs c Hf Hc.
    repeat (apply elem_of_cons in Hf as [Hf | Hf];
            [injection Hf as -> ->;
             apply list_elem_of_singleton in Hc; injection Hc as ->; cbn; lia|]).
    apply elem_of_nil in Hf. contradiction.
Defined.

(** C6. An identity that has an entry and is in none of the frames that
    follow keeps that very entry through all of them, and nothing is
    printed for it. *)
Theorem lost_identity_keeps_entry
    (frames : list ((Z -> float) * list (Z * Centroid))) (w : world) (id : Z)
    (entry : float) :
  velCentroids w !! id = Some entry ->
  (forall time_time cs, (time_time, cs) ∈ frames -> id ∉ cs.*1) ->
  velCentroids (world_of (main_loop frames w)) !! id = Some entry /\
  readings_for id (stdout (world_of (main_loop frames w)))
  = readings_for id (stdout w).
Proof.
  revert w. induction frames as [|[time_time cs] rest IH]; intros w Hentry Habs.
  - cbn. split; [exact Hentry|reflexivity].
  - assert (Hhere : id ∉ cs.*1) by (apply (Habs time_time); left).
    pose proof (observe_absent time_time cs w id Hhere) as Hv.
    cbn [main_loop].
    destruct (observe time_time cs w) as [w1|w1]; cbn in Hv |- *;
      injection Hv as Hlook Hread.
    + rewrite <- Hread. apply IH; [congruence|].
      intros tt' cs' Hf. apply (Habs tt'). right. exact Hf.
    + split; congruence.
Qed.

Lemma lost_identity_keeps_entry_witness :
  let w := {| velCentroids := {[ 7%Z := 1%float ]}; centoids := [];
              objectID := None; stdout := [] |} in
  let frames := [(fun _ : Z => 2%float, [(8%Z, mkCentroid 300 5)]);
                 (fun _ : Z => 4%float, [(8%Z, mkCentroid 700 5)])] in
  velCentroids (world_of (main_loop frames w)) !! 7%Z = Some 1%float /\
  readings_for 7 (stdout (world_of (main_loop frames w)))
  = readings_for 7 (stdout w).
Proof.
  cbn zeta. apply lost_identity_keeps_entry.
  - reflexivity.
  - intros time_time cs Hf.
    repeat (apply elem_of_cons in Hf as [Hf | Hf];
            [injection Hf as -> ->; cbn;
             intros Hin; apply list_elem_of_singleton in Hin; discriminate|]).
    apply elem_of_nil in Hf. contradiction.
Defined.

(** C5. The division of line 115 is not guarded against a zero elapsed
    time. Identity 7 leaves the zone and its velocity 3.6 is printed; it
    is then seen inside again at clock reading 5 and gets the entry 5; when
    it is next seen strictly outside and the clock still reads 5, the loop
    is ended by [ZeroDivisionError]: no second velocity is printed and the
    entry stays. *)
Theorem second_exit_with_zero_elapsed_prints_nothing :
  let w := {| velCentroids := {[ 7%Z := 1%float ]}; centoids := [];
              objectID := None; stdout := [] |} in
  exists w',
    main_loop [(fun _ : Z => 3%float, [(7%Z, mkCentroid 650 80)]);
               (fun _ : Z => 5%float, [(7%Z, mkCentroid 400 80)]);
               (fun _ : Z => 5%float, [(7%Z, mkCentroid 100 80)])] w
    = ZeroDivisionError w' /\
    gate_view 7 w' = (Some 5%float, [3.6%float]).
Proof. cbn zeta. eexists. split; reflexivity. Qed.

(** ** The emitting iteration and the rest of the state *)

(** An iteration does not look at what [objectID] held before it. *)
Lemma loop_body_rebinds (now : float) (key : Z) (centroid : Centroid)
    (w : world) (v : pyval) :
  loop_body now key centroid (set_objectID v w) = loop_body now key centroid w.
Proof. reflexivity. Qed.

(** X12. One iteration: when it prints a velocity for an identity it
    deletes that identity's entry and changes no other entry; the
    tracker's mapping [centoids] is as it was; the loop variable now holds
    the velocity, and putting the identity back into it would change
    nothing of what any later iteration does. *)
Theorem emission_touches_own_entry_only (now : float) (id : Z)
    (c : Centroid) (w w' : world) :
  loop_body now id c w = Normal w' ->
  stdout w' <> stdout w ->
  exists entry,
    velCentroids w !! id = Some entry /\
    stdout w' = stdout w ++ [(id, (distance / (now - entry) * 3600)%float)] /\
    velCentroids w' = delete id (velCentroids w) /\
    (forall other, other <> id ->
       velCentroids w' !! other = velCentroids w !! other) /\
    centoids w' = centoids w /\
    objectID w' = Some (PyFloat (distance / (now - entry) * 3600)) /\
    (forall now' key c',
       loop_body now' key c' (set_objectID (PyInt id) w')
       = loop_body now' key c' w').
Proof.
  unfold loop_body. cbn. intros Hbody Hprinted.
  destruct ((200 <? c0 c)%Z && (c0 c <? 600)%Z);
    destruct (velCentroids w !! id) as [entry|] eqn:Hentry;
    try (injection Hbody as <-; contradiction).
  destruct ((c0 c <? 200)%Z || (600 <? c0 c)%Z);
    [destruct (PrimFloat.eqb (now - entry) 0); [discriminate|]|];
    injection Hbody as <-; [|contradiction].
  exists entry. cbn. repeat split.
  intros other Hne. apply lookup_delete_ne. congruence.
Qed.

Lemma emission_touches_own_entry_only_witness :
  let w := {| velCentroids := {[ 7%Z := 1%float; 9%Z := 2%float ]};
              centoids := [(7%Z, mkCentroid 650 80); (9%Z, mkCentroid 300 4)];
              objectID := None; stdout := [] |} in
  exists w' entry,
    loop_body 3%float 7 (mkCentroid 650 80) w = Normal w' /\
    velCentroids w !! 7%Z = Some entry /\
    stdout w' = stdout w ++ [(7%Z, (distance / (3 - entry) * 3600)%float)] /\
    velCentroids w' = delete 7%Z (velCentroids w) /\
    (forall other, other <> 7%Z ->
       velCentroids w' !! other = velCentroids w !! other) /\
    centoids w' = centoids w /\
    objectID w' = Some (PyFloat (distance / (3 - entry) * 3600)) /\
    (forall now' key c',
       loop_body now' key c' (set_objectID (PyInt 7) w')
       = loop_body now' key c' w').
Proof.
  cbn zeta. eexists.
  assert (Hrun : loop_body 3%float 7 (mkCentroid 650 80)
            {| velCentroids := {[ 7%Z := 1%float; 9%Z := 2%float ]};
               centoids := [(7%Z, mkCentroid 650 80); (9%Z, mkCentroid 300 4)];
               objectID := None; stdout := [] |}
          = Normal
            {| velCentroids := delete 7%Z {[ 7%Z := 1%float; 9%Z := 2%float ]};
               centoids := [(7%Z, mkCentroid 650 80); (9%Z, mkCentroid 300 4)];
               objectID := Some (PyFloat (distance / (3 - 1) * 3600));
               stdout := [(7%Z, (distance / (3 - 1) * 3600)%float)] |})
    by reflexivity.
  destruct (emission_touches_own_entry_only _ _ _ _ _ Hrun) as (entry & H).
  - cbn. discriminate.
  - exists entry. split; [exact Hrun|exact H].
Defined.

(** ** An emitting call and the rest of the state *)

(** A call that prints a velocity for one identity may change the entry of
    another: identity 9, inside the zone and without an entry, gets one
    in the very call in which the velocity of identity 7 is printed. *)
Lemma emitting_call_changes_another_entry :
  let w := {| velCentroids := {[ 7%Z := 1%float ]}; centoids := [];
              objectID := None; stdout := [] |} in
  exists w',
    observe (fun _ => 3%float)
      [(7%Z, mkCentroid 650 80); (9%Z, mkCentroid 300 4)] w = Normal w' /\
    readings_for 7 (stdout w) = [] /\
    readings_for 7 (stdout w') = [3.6%float] /\
    velCentroids w !! 9%Z = None /\
    velCentroids w' !! 9%Z = Some 3%float.
Proof. cbn zeta. eexists. repeat split; reflexivity. Qed.

(** An iteration prints the velocity of its key, or prints nothing. *)
Lemma loop_body_emits_or_is_silent (now : float) (id : Z) (c : Centroid)
    (w : world) :
  (exists entry,
     velCentroids w !! id = Some entry /\
     loop_body now id c w =
       Normal {| velCentroids := delete id (velCentroids w);
                 centoids := centoids w;
                 objectID := Some (PyFloat (distance / (now - entry) * 3600));
                 stdout := stdout w
                             ++ [(id, (distance / (now - entry) * 3600)%float)] |})
  \/ stdout (world_of (loop_body now id c w)) = stdout w.
Proof.
  unfold loop_body. cbn.
  destruct ((200 <? c0 c)%Z && (c0 c <? 600)%Z);
    destruct (velCentroids w !! id) as [entry|]; cbn; auto.
  destruct ((c0 c <? 200)%Z || (600 <? c0 c)%Z);
    [destruct (PrimFloat.eqb (now - entry) 0)|]; cbn; auto.
  left. exists entry. split; reflexivity.
Qed.

(** Two worlds with the same entries and the same output are taken to
    such worlds by an iteration, which ends the same way in both. *)
Lemma loop_body_agree (now : float) (key : Z) (c : Centroid) (wa wb : world) :
  velCentroids wa = velCentroids wb -> stdout wa = stdout wb ->
  runs_through (loop_body now key c wa) = runs_through (loop_body now key c wb) /\
  velCentroids (world_of (loop_body now key c wa))
  = velCentroids (world_of (loop_body now key c wb)) /\
  stdout (world_of (loop_body now key c wa))
  = stdout (world_of (loop_body now key c wb)).
Proof.
  unfold loop_body. cbn. intros Hv Hs. rewrite Hv.
  destruct ((200 <? c0 c)%Z && (c0 c <? 600)%Z);
    destruct (velCentroids wb !! key) as [entry|]; cbn;
    rewrite ?Hv, ?Hs; try (repeat split; reflexivity).
  destruct ((c0 c <? 200)%Z || (600 <? c0 c)%Z);
    [destruct (PrimFloat.eqb (now - entry) 0)|]; cbn;
    rewrite ?Hv, ?Hs; repeat split; reflexivity.
Qed.

Lemma for_items_agree (time_time : Z -> float) (items : list (Z * Centroid))
    (wa wb : world) :
  velCentroids wa = velCentroids wb -> stdout wa = stdout wb ->
  runs_through (for_items time_time items wa)
  = runs_through (for_items time_time items wb) /\
  velCentroids (world_of (for_items time_time items wa))
  = velCentroids (world_of (for_items time_time items wb)) /\
  stdout (world_of (for_items time_time items wa))
  = stdout (world_of (for_items time_time items wb)).
Proof.
  revert wa wb. induction items as [|[key c] rest IH]; intros wa wb Hv Hs.
  - cbn. auto.
  - cbn [for_items].
    destruct (loop_body_agree (time_time key) key c wa wb Hv Hs)
      as (Hkind & Hv' & Hs').
    destruct (loop_body (time_time key) key c wa) as [wa'|wa'],
             (loop_body (time_time key) key c wb) as [wb'|wb'];
      cbn in Hkind, Hv', Hs' |- *; try discriminate; auto.
Qed.

(** The same for two worlds of which the first lacks the entry of [id]
    and has one more line of output, the velocity printed for [id]: the
    iteration for another key keeps them so. *)
Lemma loop_body_beside (now : float) (key : Z) (c : Centroid) (wa wb : world)
    (id : Z) (v : float) (before after : list (Z * float)) :
  key <> id ->
  velCentroids wa = delete id (velCentroids wb) ->
  stdout wa = before ++ (id, v) :: after ->
  stdout wb = before ++ after ->
  runs_through (loop_body now key c wa) = runs_through (loop_body now key c wb) /\
  velCentroids (world_of (loop_body now key c wa))
  = delete id (velCentroids (world_of (loop_body now key c wb))) /\
  exists after',
    stdout (world_of (loop_body now key c wa)) = before ++ (id, v) :: after' /\
    stdout (world_of (loop_body now key c wb)) = before ++ after'.
Proof.
  intros Hne Hv Hsa Hsb. unfold loop_body. cbn.
  rewrite Hv, lookup_delete_ne by congruence.
  destruct ((200 <? c0 c)%Z && (c0 c <? 600)%Z);
    destruct (velCentroids wb !! key) as [entry|]; cbn; eauto.
  - split; [reflexivity|]. split; [|eauto].
    symmetry. apply delete_insert_ne. congruence.
  - destruct ((c0 c <? 200)%Z || (600 <? c0 c)%Z);
      [destruct (PrimFloat.eqb (now - entry) 0)|]; cbn; eauto.
    split; [reflexivity|]. split; [apply delete_delete|].
    exists (after ++ [(key, (distance / (now - entry) * 3600)%float)]).
    rewrite Hsa, Hsb, <- !app_assoc. split; reflexivity.
Qed.

Lemma for_items_beside (time_time : Z -> float) (items : list (Z * Centroid))
    (wa wb : world) (id : Z) (v : float) (before after : list (Z * float)) :
  id ∉ items.*1 ->
  velCentroids wa = delete id (velCentroids wb) ->
  stdout wa = before ++ (id, v) :: after ->
  stdout wb = before ++ after ->
  runs_through (for_items time_time items wa)
  = runs_through (for_items time_time items wb) /\
  velCentroids (world_of (for_items time_time items wa))
  = delete id (velCentroids (world_of (for_items time_time items wb))) /\
  exists after',
    stdout (world_of (for_items time_time items wa)) = before ++ (id, v) :: after' /\
    stdout (world_of (for_items time_time items wb)) = before ++ after'.
Proof.
  revert wa wb after.
  induction items as [|[key c] rest IH]; intros wa wb after Habs Hv Hsa Hsb.
  - cbn. eauto.
  - cbn in Habs. apply not_elem_of_cons in Habs as [Hne Habs].
    cbn [for_items].
    destruct (loop_body_beside (time_time key) key c wa wb id v before after
                (not_eq_sym Hne) Hv Hsa Hsb)
      as (Hkind & Hv' & after' & Hsa' & Hsb').
    destruct (loop_body (time_time key) key c wa) as [wa'|wa'],
             (loop_body (time_time key) key c wb) as [wb'|wb'];
      cbn in Hkind, Hv', Hsa', Hsb' |- *; try discriminate; eauto.
Qed.

(** C10, as the code has it. A call that prints a velocity for an identity
    ends exactly as the same call without that identity's centroid would,
    but for two things: the identity's own entry is removed, and its
    velocity is one more line of the output. So the entry of any other
    identity is what that identity's own iteration makes of it, and is
    untouched if the call does not hold that identity; the mapping
    [centoids] is the one the call was given; and the velocity that line
    118 leaves in the loop variable changes nothing of what follows. *)
Theorem emission_removes_own_entry_only (time_time : Z -> float)
    (pre post : list (Z * Centroid)) (id : Z) (c : Centroid) (w : world) :
  let with_id := observe time_time (pre ++ (id, c) :: post) w in
  let without := observe time_time (pre ++ post) w in
  NoDup (pre ++ (id, c) :: post).*1 ->
  readings_for id (stdout (world_of with_id)) <> readings_for id (stdout w) ->
  exists entry before after,
    velCentroids w !! id = Some entry /\
    runs_through with_id = runs_through without /\
    velCentroids (world_of with_id)
    = delete id (velCentroids (world_of without)) /\
    stdout (world_of with_id)
    = before ++ (id, (distance / (time_time id - entry) * 3600)%float) :: after /\
    stdout (world_of without) = before ++ after /\
    (forall other, other <> id -> other ∉ (pre ++ post).*1 ->
       velCentroids (world_of with_id) !! other = velCentroids w !! other) /\
    centoids (world_of with_id) = pre ++ (id, c) :: post.
Proof.
  cbn zeta. intros Hnd Hemit.
  assert (Hnd' := Hnd).
  rewrite fmap_app, fmap_cons in Hnd'. cbn in Hnd'.
  apply NoDup_app in Hnd' as (_ & Hdisj & Hndpost).
  apply NoDup_cons in Hndpost as [Hpost _].
  assert (Hpre : id ∉ pre.*1) by (intros Hin; apply (Hdisj id Hin); left).
  assert (Hothers : forall other, other <> id -> other ∉ (pre ++ post).*1 ->
            velCentroids (world_of (observe time_time (pre ++ (id, c) :: post) w))
              !! other = velCentroids w !! other).
  { intros other Hne Habs.
    pose proof (observe_absent time_time (pre ++ (id, c) :: post) w other) as Hv.
    assert (Hnot : other ∉ (pre ++ (id, c) :: post).*1).
    { rewrite fmap_app, fmap_cons. cbn. rewrite fmap_app in Habs.
      intros Hin. apply elem_of_app in Hin as [Hin | Hin].
      - apply Habs, elem_of_app. left. exact Hin.
      - apply elem_of_cons in Hin as [Hin | Hin]; [contradiction|].
        apply Habs, elem_of_app. right. exact Hin. }
    specialize (Hv Hnot). injection Hv as Hlook _. exact Hlook. }
  pose proof (observe_centoids time_time (pre ++ (id, c) :: post) w) as Hcent.
  unfold observe in *.
  set (wa := {| velCentroids := velCentroids w;
                centoids := pre ++ (id, c) :: post;
                objectID := objectID w; stdout := stdout w |}) in *.
  set (wb := {| velCentroids := velCentroids w; centoids := pre ++ post;
                objectID := objectID w; stdout := stdout w |}).
  rewrite !for_items_app in *.
  destruct (for_items_agree time_time pre wa wb eq_refl eq_refl)
    as (Hkind1 & Hv1 & Hs1).
  pose proof (for_items_absent time_time pre wa id Hpre) as Hview1.
  destruct (for_items time_time pre wa) as [wa1|wa1],
           (for_items time_time pre wb) as [wb1|wb1];
    cbn in Hkind1, Hv1, Hs1, Hview1; try discriminate;
    cbn [bind for_items world_of] in *.
  2:{ exfalso. apply Hemit. injection Hview1 as _ Hread. exact Hread. }
  injection Hview1 as Hlook1 Hread1.
  destruct (loop_body_emits_or_is_silent (time_time id) id c wa1)
    as [(entry & Hentry & Hbody) | Hsilent].
  - rewrite Hbody in *. cbn [bind] in *.
    destruct (for_items_beside time_time post
                {| velCentroids := delete id (velCentroids wa1);
                   centoids := centoids wa1;
                   objectID := Some (PyFloat (distance / (time_time id - entry)
                                              * 3600));
                   stdout := stdout wa1
                     ++ [(id, (distance / (time_time id - entry) * 3600)%float)] |}
                wb1 id (distance / (time_time id - entry) * 3600)%float
                (stdout wa1) [] Hpost)
      as (Hkind & Hv & after & Hsa & Hsb).
    + cbn. rewrite Hv1. reflexivity.
    + reflexivity.
    + rewrite app_nil_r. symmetry. exact Hs1.
    + exists entry, (stdout wa1), after.
      split; [rewrite <- Hlook1; exact Hentry|].
      repeat split; assumption.
  - exfalso. apply Hemit. rewrite <- Hread1.
    destruct (loop_body (time_time id) id c wa1) as [wa2|wa2];
      cbn in Hsilent |- *.
    + pose proof (for_items_absent time_time post wa2 id Hpost) as Hview2.
      injection Hview2 as _ Hread2. rewrite Hread2, Hsilent. reflexivity.
    + rewrite Hsilent. reflexivity.
Qed.

Lemma emission_removes_own_entry_only_witness :
  let w := {| velCentroids := {[ 7%Z := 1%float ]}; centoids := [];
              objectID := None; stdout := [] |} in
  let with_id := observe (fun _ => 3%float)
                   ([(8%Z, mkCentroid 500 1)] ++ (7%Z, mkCentroid 650 80)
                      :: [(9%Z, mkCentroid 300 4)]) w in
  let without := observe (fun _ => 3%float)
                   ([(8%Z, mkCentroid 500 1)] ++ [(9%Z, mkCentroid 300 4)]) w in
  exists entry before after,
    velCentroids w !! 7%Z = Some entry /\
    runs_through with_id = runs_through without /\
    velCentroids (world_of with_id)
    = delete 7%Z (velCentroids (world_of without)) /\
    stdout (world_of with_id)
    = before ++ (7%Z, (distance / (3 - entry) * 3600)%float) :: after /\
    stdout (world_of without) = before ++ after /\
    (forall other, other <> 7%Z ->
       other ∉ ([(8%Z, mkCentroid 500 1)] ++ [(9%Z, mkCentroid 300 4)]).*1 ->
       velCentroids (world_of with_id) !! other = velCentroids w !! other) /\
    centoids (world_of with_id)
    = [(8%Z, mkCentroid 500 1)] ++ (7%Z, mkCentroid 650 80)
        :: [(9%Z, mkCentroid 300 4)].
Proof.
  intros w with_id without.
  apply (emission_removes_own_entry_only (fun _ => 3%float)
           [(8%Z, mkCentroid 500 1)] [(9%Z, mkCentroid 300 4)] 7
           (mkCentroid 650 80) w).
  - cbn. repeat (apply NoDup_cons; split);
      [ intros Hin; repeat (apply elem_of_cons in Hin as [Hin | Hin];
                            [discriminate|]);
        apply elem_of_nil in Hin; contradiction ..
      | apply NoDup_nil; exact I ].
  - vm_compute. discriminate.
Defined.

(** ** The scenario of the specification *)

(** C3. With the bounds 200 and 600, the distance 0.002 and the factor
    3600 of the source, an identity seen at x=150 at time 0, at x=400 at
    time 1.0 and at x=650 at time 3.0 prints nothing in the first two
    frames and exactly one velocity, 3.6, in the third. *)
Theorem scenario_reading (id y1 y2 y3 : Z) :
  let f1 := (fun _ : Z => 0%float, [(id, mkCentroid 150 y1)]) in
  let f2 := (fun _ : Z => 1%float, [(id, mkCentroid 400 y2)]) in
  let f3 := (fun _ : Z => 3%float, [(id, mkCentroid 650 y3)]) in
  exists w1 w2 w3,
    main_loop [f1] initial = Normal w1 /\ stdout w1 = [] /\
    main_loop [f1; f2] initial = Normal w2 /\ stdout w2 = [] /\
    main_loop [f1; f2; f3] initial = Normal w3 /\
    stdout w3 = [(id, 3.6%float)] /\
    (distance / (3 - 1) * 3600)%float = 3.6%float.
Proof.
  cbn zeta.
  assert (H1 : observe (fun _ => 0%float) [(id, mkCentroid 150 y1)] initial
               = Normal {| velCentroids := ∅;
                           centoids := [(id, mkCentroid 150 y1)];
                           objectID := Some (PyInt id); stdout := [] |}).
  { unfold observe. cbn [for_items].
    rewrite loop_body_unseen; [ | cbn; lia | apply lookup_empty ].
    reflexivity. }
  assert (H2 : forall w, velCentroids w = ∅ -> stdout w = [] ->
            observe (fun _ => 1%float) [(id, mkCentroid 400 y2)] w
               = Normal {| velCentroids := {[ id := 1%float ]};
                           centoids := [(id, mkCentroid 400 y2)];
                           objectID := Some (PyInt id); stdout := [] |}).
  { intros w Hv Hs. unfold observe. cbn [for_items].
    rewrite loop_body_enter;
      [ | cbn; lia | cbn; rewrite Hv; apply lookup_empty ].
    cbn. rewrite Hv, Hs. reflexivity. }
  assert (H3 : forall w, velCentroids w = {[ id := 1%float ]} -> stdout w = [] ->
            observe (fun _ => 3%float) [(id, mkCentroid 650 y3)] w
               = Normal {| velCentroids := delete id {[ id := 1%float ]};
                           centoids := [(id, mkCentroid 650 y3)];
                           objectID := Some (PyFloat 3.6);
                           stdout := [(id, 3.6%float)] |}).
  { intros w Hv Hs. unfold observe. cbn [for_items].
    rewrite (loop_body_exit _ _ _ _ 1%float);
      [ | cbn; lia | cbn; rewrite Hv; apply lookup_singleton_eq | reflexivity ].
    cbn. rewrite Hv, Hs. reflexivity. }
  eexists _, _, _. cbn [main_loop bind].
  rewrite H1. cbn [bind].
  rewrite H2 by reflexivity. cbn [bind].
  rewrite H3 by reflexivity. cbn [bind].
  repeat split; reflexivity.
Qed.

(** ** The boxes of [findContours] *)

Section FindContoursFacts.
Variables frame contour : Type.
Variable cv_findContours : frame -> list contour.
Variable cv_contourArea : contour -> float.
Variable cv_boundingRect : contour -> Z * Z * Z * Z.

(** What OpenCV promises of a bounding rectangle. *)
Hypothesis boundingRect_extent :
  forall cnt, let '(_, _, w, h) := cv_boundingRect cnt in (0 <= w /\ 0 <= h)%Z.

Lemma contour_loop_spec (contours : list contour) (boxes : list (list Z)) :
  contour_loop contour cv_contourArea cv_boundingRect contours boxes
  = boxes ++ map (box_of contour cv_boundingRect)
               (List.filter (large_enough contour cv_contourArea) contours).
Proof using Type.
  revert boxes.
  induction contours as [|cnt rest IH]; intros boxes;
    cbn [contour_loop List.filter].
  - cbn. rewrite app_nil_r. reflexivity.
  - destruct (large_enough contour cv_contourArea cnt); rewrite IH.
    + cbn [map]. rewrite <- app_assoc. reflexivity.
    + reflexivity.
Qed.

(** C9. The boxes returned are those of the contours whose area exceeds
    1000, all of them and no others, in the order of the contours; each
    is [[x, y, x+w, y+h]] for a rectangle of non-negative extent, so its
    first corner is not beyond its second. *)
Theorem findContours_boxes (fr : frame) :
  findContours frame contour cv_findContours cv_contourArea cv_boundingRect fr
  = map (box_of contour cv_boundingRect)
        (List.filter (fun cnt => PrimFloat.ltb 1000 (cv_contourArea cnt))
                     (cv_findContours fr)) /\
  forall box,
    box ∈ findContours frame contour cv_findContours cv_contourArea
            cv_boundingRect fr ->
    exists x y w h,
      box = [x; y; x + w; y + h]%Z /\
      (0 <= w /\ 0 <= h /\ x <= x + w /\ y <= y + h)%Z.
Proof using boundingRect_extent.
  unfold findContours. rewrite contour_loop_spec. cbn [app].
  split; [reflexivity|].
  intros box Hbox. apply list_elem_of_fmap in Hbox as (cnt & -> & _).
  pose proof (boundingRect_extent cnt) as Hext. unfold box_of.
  destruct (cv_boundingRect cnt) as [[[x y] w] h].
  exists x, y, w, h. split; [reflexivity|lia].
Qed.
End FindContoursFacts.

Lemma fold_min_max (x0 : Z) (l : list Z) :
  (fold_right Z.min x0 l <= fold_right Z.max x0 l)%Z.
Proof.
  assert (fold_right Z.min x0 l <= x0 <= fold_right Z.max x0 l)%Z; [|lia].
  induction l as [|a l IH]; cbn; lia.
Qed.

Lemma points_rect_extent (pts : list (Z * Z)) :
  let '(_, _, w, h) := points_rect pts in (0 <= w /\ 0 <= h)%Z.
Proof.
  destruct pts as [|[x0 y0] rest]; cbn; [lia|].
  pose proof (fold_min_max x0 (map fst rest)).
  pose proof (fold_min_max y0 (map snd rest)). lia.
Qed.

Lemma findContours_boxes_witness :
  let small := [(0, 0); (10, 0); (10, 10); (0, 10)]%Z in
  let large := [(5, 7); (105, 7); (105, 57); (5, 57)]%Z in
  let fr := [small; large] in
  findContours _ _ (fun f => f) points_area points_rect fr
  = map (box_of _ points_rect)
        (List.filter (fun cnt => PrimFloat.ltb 1000 (points_area cnt)) fr) /\
  forall box,
    box ∈ findContours _ _ (fun f => f) points_area points_rect fr ->
    exists x y w h,
      box = [x; y; x + w; y + h]%Z /\
      (0 <= w /\ 0 <= h /\ x <= x + w /\ y <= y + h)%Z.
Proof.
  cbn zeta.
  apply (findContours_boxes (list (list (Z * Z))) (list (Z * Z)) (fun f => f)
           points_area points_rect points_rect_extent).
Defined.

Example findContours_run :
  findContours _ _ (fun f => f) points_area points_rect
    [ [(0, 0); (10, 0); (10, 10); (0, 10)];
      [(5, 7); (105, 7); (105, 57); (5, 57)] ]%Z
  = [[5; 7; 106; 58]%Z].
Proof. vm_compute. reflexivity. Qed.

(** ** The tracker's operations, one by one *)

Lemma rows_of_ids (t : Tracker) : map fst (rows_of t) = (map_to_list (registry t)).*1.
Proof.
  unfold rows_of. rewrite map_map. reflexivity.
Qed.

Lemma rows_of_NoDup (t : Tracker) : NoDup (map fst (rows_of t)).
Proof. rewrite rows_of_ids. apply NoDup_fst_map_to_list. Qed.

Lemma rows_of_elem (t : Tracker) (i : Z) :
  i ∈ map fst (rows_of t) <-> is_Some (registry t !! i).
Proof.
  rewrite rows_of_ids. split.
  - intros Hin. apply list_elem_of_fmap in Hin as ([k o] & -> & Hko).
    apply elem_of_map_to_list in Hko. exists o. exact Hko.
  - intros [o Ho]. apply list_elem_of_fmap. exists (i, o).
    split; [reflexivity|]. apply elem_of_map_to_list. exact Ho.
Qed.

Lemma mark_missing_nextId (t : Tracker) (i : Z) :
  nextId (mark_missing t i) = nextId t.
Proof.
  unfold mark_missing. destruct (registry t !! i) as [o|]; [|reflexivity].
  destruct (maxDisappeared t <? disappearedCount (age o))%nat; reflexivity.
Qed.

Lemma mark_missing_maxDisappeared (t : Tracker) (i : Z) :
  maxDisappeared (mark_missing t i) = maxDisappeared t.
Proof.
  unfold mark_missing. destruct (registry t !! i) as [o|]; [|reflexivity].
  destruct (maxDisappeared t <? disappearedCount (age o))%nat; reflexivity.
Qed.

Lemma mark_missing_lookup (t : Tracker) (i j : Z) :
  registry (mark_missing t i) !! j
  = if decide (j = i) then registry t !! i ≫= aged (maxDisappeared t)
    else registry t !! j.
Proof.
  unfold mark_missing, aged.
  destruct (registry t !! i) as [o|] eqn:Ho; cbn [mbind option_bind].
  - destruct (maxDisappeared t <? disappearedCount (age o))%nat;
      cbn [registry deregister]; case_decide; subst;
      rewrite ?lookup_delete_eq, ?lookup_insert_eq; try reflexivity.
    + apply lookup_delete_ne. congruence.
    + apply lookup_insert_ne. congruence.
  - case_decide; subst; [exact Ho|reflexivity].
Qed.

Lemma foldl_mark_missing_nextId (ids : list Z) (t : Tracker) :
  nextId (foldl mark_missing t ids) = nextId t.
Proof.
  revert t. induction ids as [|a rest IH]; intros t; cbn; [reflexivity|].
  rewrite IH. apply mark_missing_nextId.
Qed.

Lemma foldl_mark_missing_maxDisappeared (ids : list Z) (t : Tracker) :
  maxDisappeared (foldl mark_missing t ids) = maxDisappeared t.
Proof.
  revert t. induction ids as [|a rest IH]; intros t; cbn; [reflexivity|].
  rewrite IH. apply mark_missing_maxDisappeared.
Qed.

(** Marking the objects of a duplicate-free list of ids ages each of
    them once and leaves the others alone. *)
Lemma foldl_mark_missing_lookup (ids : list Z) (t : Tracker) (j : Z) :
  NoDup ids ->
  registry (foldl mark_missing t ids) !! j
  = if decide (j ∈ ids) then registry t !! j ≫= aged (maxDisappeared t)
    else registry t !! j.
Proof.
  revert t. induction ids as [|a rest IH]; intros t Hnd; cbn.
  - case_decide as Hin; [|reflexivity]. apply elem_of_nil in Hin. contradiction.
  - apply NoDup_cons in Hnd as [Hfresh Hnd].
    rewrite (IH _ Hnd), mark_missing_maxDisappeared, mark_missing_lookup.
    destruct (decide (j = a)) as [-> | Hne].
    + rewrite decide_False by exact Hfresh.
      rewrite decide_True by left. reflexivity.
    + destruct (decide (j ∈ rest)) as [Hin | Hnin].
      * rewrite decide_True by (right; exact Hin). reflexivity.
      * rewrite decide_False; [reflexivity|].
        intros Hin. apply elem_of_cons in Hin as [? | ?]; contradiction.
Qed.

Lemma foldl_mark_matched_facts (pairs : list candidate) (t : Tracker) :
  let t' := foldl (fun t p => mark_matched t (fst (fst p)) (snd (snd p)))
                  t pairs in
  nextId t' = nextId t /\
  maxDisappeared t' = maxDisappeared t /\
  dom (registry t') = dom (registry t) /\
  (forall j, j ∉ map (fun p => fst (fst p)) pairs ->
             registry t' !! j = registry t !! j) /\
  (counts_within t -> counts_within t').
Proof.
  revert t. induction pairs as [|p rest IH]; intros t; cbn.
  - repeat split; auto.
  - destruct (IH (mark_matched t (fst (fst p)) (snd (snd p))))
      as (Hn & Hm & Hd & Hl & Hc).
    cbn in Hn, Hm, Hd. rewrite dom_alter_L in Hd.
    repeat split; try assumption.
    + intros j Hj. apply not_elem_of_cons in Hj as [Hne Hj].
      rewrite (Hl j Hj). cbn. apply lookup_alter_ne. congruence.
    + intros Hcw. apply Hc. intros i o. cbn. rewrite lookup_alter.
      case_decide; [|apply Hcw].
      destruct (registry t !! fst (fst p)); cbn; [|discriminate].
      intros [= <-]. cbn. lia.
Qed.

Lemma register_all_fst (c : Centroid) (cs : list Centroid) (t : Tracker) :
  fst (register_all t (c :: cs)) = fst (register_all (register c t) cs).
Proof. cbn. destruct (register_all (register c t) cs). reflexivity. Qed.

Lemma register_all_snd (c : Centroid) (cs : list Centroid) (t : Tracker) :
  snd (register_all t (c :: cs))
  = nextId t :: snd (register_all (register c t) cs).
Proof. cbn. destruct (register_all (register c t) cs). reflexivity. Qed.

Lemma register_all_nextId (cs : list Centroid) (t : Tracker) :
  nextId (fst (register_all t cs)) = (nextId t + Z.of_nat (length cs))%Z.
Proof.
  revert t. induction cs as [|c rest IH]; intros t.
  - cbn. lia.
  - rewrite register_all_fst, IH. cbn. lia.
Qed.

Lemma register_all_maxDisappeared (cs : list Centroid) (t : Tracker) :
  maxDisappeared (fst (register_all t cs)) = maxDisappeared t.
Proof.
  revert t. induction cs as [|c rest IH]; intros t.
  - reflexivity.
  - rewrite register_all_fst, IH. reflexivity.
Qed.

(** Registration writes at ids from the counter on, nowhere below. *)
Lemma register_all_lookup_below (cs : list Centroid) (t : Tracker) (j : Z) :
  (j < nextId t)%Z ->
  registry (fst (register_all t cs)) !! j = registry t !! j.
Proof.
  revert t. induction cs as [|c rest IH]; intros t Hlt.
  - reflexivity.
  - rewrite register_all_fst, IH by (cbn; lia). cbn.
    apply lookup_insert_ne. lia.
Qed.

Lemma register_all_counts (cs : list Centroid) (t : Tracker) :
  counts_within t -> counts_within (fst (register_all t cs)).
Proof.
  revert t. induction cs as [|c rest IH]; intros t Hcw.
  - exact Hcw.
  - rewrite register_all_fst. apply IH. intros i o. cbn.
    rewrite lookup_insert. case_decide.
    + intros [= <-]. cbn. lia.
    + apply Hcw.
Qed.

Lemma register_all_grows (cs : list Centroid) (t : Tracker) :
  grows t (fst (register_all t cs)) (snd (register_all t cs)).
Proof.
  unfold grows. rewrite register_all_nextId, register_all_maxDisappeared.
  split; [lia|]. split; [reflexivity|].
  revert t. induction cs as [|c rest IH]; intros t.
  - cbn. split; [constructor|]. split; [constructor|]. auto.
  - rewrite register_all_fst, register_all_snd.
    destruct (IH (register c t)) as (Hsorted & Hrange & Hdom).
    cbn [length]. cbn in Hrange, Hdom.
    split; [|split].
    + constructor; [exact Hsorted|].
      eapply Forall_impl; [exact Hrange|]. cbn. intros i Hi. lia.
    + constructor; [lia|].
      eapply Forall_impl; [exact Hrange|]. cbn. intros i Hi. lia.
    + intros j Hj. apply Hdom in Hj as [Hj | Hj].
      * rewrite dom_insert_L in Hj. apply elem_of_union in Hj as [Hj | Hj].
        -- apply elem_of_singleton in Hj. subst j. right. left.
        -- left. exact Hj.
      * right. right. exact Hj.
Qed.

(** ** One [update], and runs of them *)

Lemma grows_quiet (t t' : Tracker) :
  nextId t' = nextId t ->
  maxDisappeared t' = maxDisappeared t ->
  (forall j, j ∈ dom (registry t') -> j ∈ dom (registry t)) ->
  grows t t' [].
Proof.
  intros Hn Hm Hd. unfold grows. rewrite Hn.
  split; [lia|]. split; [exact Hm|]. split; [constructor|].
  split; [constructor|]. intros j Hj. left. apply Hd. exact Hj.
Qed.

Lemma grows_trans (t t' t'' : Tracker) (ids ids' : list Z) :
  grows t t' ids -> grows t' t'' ids' -> grows t t'' (ids ++ ids').
Proof.
  intros (Hn & Hm & Hs & Hr & Hd) (Hn' & Hm' & Hs' & Hr' & Hd').
  rewrite Forall_forall in Hr, Hr'.
  split; [lia|]. split; [congruence|]. split; [|split].
  - apply StronglySorted_app_2; [|assumption..].
    intros x1 x2 H1 H2. specialize (Hr x1 H1). specialize (Hr' x2 H2).
    cbn in Hr, Hr'. lia.
  - apply Forall_app. split; apply Forall_forall; intros x Hx.
    + specialize (Hr x Hx). cbn in Hr. lia.
    + specialize (Hr' x Hx). cbn in Hr'. lia.
  - intros j Hj. apply Hd' in Hj as [Hj | Hj].
    + apply Hd in Hj as [Hj | Hj]; [left; exact Hj|].
      right. apply elem_of_app. left. exact Hj.
    + right. apply elem_of_app. right. exact Hj.
Qed.

Lemma grows_ids_below_next (t t' : Tracker) (ids : list Z) :
  grows t t' ids -> ids_below_next t -> ids_below_next t'.
Proof.
  intros (Hn & _ & _ & Hr & Hd) Hwf j Hj.
  rewrite Forall_forall in Hr.
  apply Hd in Hj as [Hj | Hj].
  - specialize (Hwf j Hj). lia.
  - specialize (Hr j Hj). cbn in Hr. lia.
Qed.

Lemma foldl_mark_missing_grows (ids : list Z) (t : Tracker) :
  NoDup ids -> grows t (foldl mark_missing t ids) [].
Proof.
  intros Hnd. apply grows_quiet.
  - apply foldl_mark_missing_nextId.
  - apply foldl_mark_missing_maxDisappeared.
  - intros j Hj. apply elem_of_dom in Hj. apply elem_of_dom.
    rewrite (foldl_mark_missing_lookup _ _ _ Hnd) in Hj.
    case_decide; [|exact Hj].
    destruct (registry t !! j); [eauto|].
    destruct Hj as [? Hj]. discriminate.
Qed.

Lemma foldl_mark_missing_counts (ids : list Z) (t : Tracker) :
  NoDup ids -> counts_within t -> counts_within (foldl mark_missing t ids).
Proof.
  intros Hnd Hcw i o. rewrite foldl_mark_missing_maxDisappeared.
  rewrite (foldl_mark_missing_lookup _ _ _ Hnd).
  case_decide; [|apply Hcw].
  destruct (registry t !! i) as [o0|]; cbn; [|discriminate].
  unfold aged. destruct (maxDisappeared t <? disappearedCount (age o0))%nat eqn:E;
    [discriminate|].
  intros [= <-]. apply Nat.ltb_ge in E. exact E.
Qed.

Lemma unmatched_rows_NoDup (t : Tracker) (matched_rows : list Z) :
  NoDup (filter (fun i => i ∉ matched_rows) (map fst (rows_of t))).
Proof. apply NoDup_filter, rows_of_NoDup. Qed.

Lemma update_state_grows (t : Tracker) (boxes : list BoundingBox) :
  grows t (fst (update_state t boxes)) (snd (update_state t boxes)).
Proof.
  unfold update_state.
  destruct (bool_decide (registry t = ∅)
            && negb (bool_decide (map centroid_of boxes = []))).
  - apply register_all_grows.
  - destruct (bool_decide (map centroid_of boxes = [])).
    + cbn [fst snd]. apply foldl_mark_missing_grows, rows_of_NoDup.
    + cbn zeta.
      destruct (foldl_mark_matched_facts (matching t boxes) t)
        as (Hn & Hm & Hd & _ & _).
      refine (grows_trans t _ _ [] _ _ (register_all_grows _ _)).
      refine (grows_trans t _ _ [] [] _
                (foldl_mark_missing_grows _ _ (unmatched_rows_NoDup t _))).
      apply grows_quiet; [exact Hn|exact Hm|]. intros j. rewrite Hd. auto.
Qed.

Lemma update_state_counts (t : Tracker) (boxes : list BoundingBox) :
  counts_within t -> counts_within (fst (update_state t boxes)).
Proof.
  intros Hcw. unfold update_state.
  destruct (bool_decide (registry t = ∅)
            && negb (bool_decide (map centroid_of boxes = []))).
  - apply register_all_counts, Hcw.
  - destruct (bool_decide (map centroid_of boxes = [])).
    + cbn [fst]. apply foldl_mark_missing_counts; [apply rows_of_NoDup|exact Hcw].
    + cbn zeta. apply register_all_counts.
      apply foldl_mark_missing_counts; [apply unmatched_rows_NoDup|].
      apply (foldl_mark_matched_facts (matching t boxes) t). exact Hcw.
Qed.

(** An object without a detection in the frame is aged by [update],
    whatever else the frame holds. *)
Lemma update_state_missing (t : Tracker) (boxes : list BoundingBox) (i : Z)
    (o : TrackedObject) :
  ids_below_next t ->
  registry t !! i = Some o ->
  i ∉ map (fun p => fst (fst p)) (matching t boxes) ->
  registry (fst (update_state t boxes)) !! i = aged (maxDisappeared t) o.
Proof.
  intros Hwf Ho Hun.
  assert (Hrow : i ∈ map fst (rows_of t)) by (apply rows_of_elem; eauto).
  assert (Hlt : (i < nextId t)%Z) by (apply Hwf, elem_of_dom; eauto).
  unfold update_state.
  destruct (bool_decide (registry t = ∅)) eqn:Hempty.
  { apply bool_decide_eq_true in Hempty. rewrite Hempty in Ho.
    rewrite lookup_empty in Ho. discriminate. }
  cbn [andb].
  destruct (bool_decide (map centroid_of boxes = [])).
  - cbn [fst]. rewrite foldl_mark_missing_lookup by apply rows_of_NoDup.
    rewrite decide_True by exact Hrow. rewrite Ho. reflexivity.
  - cbn zeta.
    destruct (foldl_mark_matched_facts (matching t boxes) t)
      as (Hn & Hm & _ & Hl & _).
    rewrite register_all_lookup_below
      by (rewrite foldl_mark_missing_nextId, Hn; exact Hlt).
    rewrite foldl_mark_missing_lookup by apply unmatched_rows_NoDup.
    rewrite decide_True by (apply list_elem_of_filter; split; assumption).
    rewrite (Hl i Hun), Hm, Ho. reflexivity.
Qed.

Lemma run_cons (t : Tracker) (boxes : list BoundingBox)
    (rest : list (list BoundingBox)) :
  run t (boxes :: rest) = run (fst (update t boxes)) rest.
Proof.
  unfold run. cbn [run_ids].
  destruct (run_ids (fst (update t boxes)) rest). reflexivity.
Qed.

Lemma assigned_cons (t : Tracker) (boxes : list BoundingBox)
    (rest : list (list BoundingBox)) :
  assigned t (boxes :: rest)
  = snd (update_state t boxes) ++ assigned (fst (update t boxes)) rest.
Proof.
  unfold assigned. cbn [run_ids].
  destruct (run_ids (fst (update t boxes)) rest). reflexivity.
Qed.

Lemma run_app (t : Tracker) (fs1 fs2 : list (list BoundingBox)) :
  run t (fs1 ++ fs2) = run (run t fs1) fs2.
Proof.
  revert t. induction fs1 as [|boxes rest IH]; intros t.
  - reflexivity.
  - cbn [app]. rewrite !run_cons. apply IH.
Qed.

Lemma assigned_app (t : Tracker) (fs1 fs2 : list (list BoundingBox)) :
  assigned t (fs1 ++ fs2) = assigned t fs1 ++ assigned (run t fs1) fs2.
Proof.
  revert t. induction fs1 as [|boxes rest IH]; intros t.
  - reflexivity.
  - cbn [app]. rewrite !assigned_cons, run_cons, IH, app_assoc. reflexivity.
Qed.

Lemma run_grows (t : Tracker) (frames : list (list BoundingBox)) :
  grows t (run t frames) (assigned t frames).
Proof.
  revert t. induction frames as [|boxes rest IH]; intros t.
  - apply grows_quiet; auto.
  - rewrite run_cons, assigned_cons.
    eapply grows_trans; [apply update_state_grows|apply IH].
Qed.

Lemma run_invariants (t : Tracker) (frames : list (list BoundingBox)) :
  ids_below_next t -> counts_within t ->
  ids_below_next (run t frames) /\ counts_within (run t frames).
Proof.
  revert t. induction frames as [|boxes rest IH]; intros t Hwf Hcw.
  - split; assumption.
  - rewrite run_cons. apply IH.
    + eapply grows_ids_below_next; [apply update_state_grows|exact Hwf].
    + apply update_state_counts, Hcw.
Qed.

Lemma new_tracker_invariants (maxD : nat) :
  ids_below_next (new_tracker maxD) /\ counts_within (new_tracker maxD).
Proof.
  split.
  - intros i Hi. cbn in Hi. rewrite dom_empty_L in Hi.
    apply elem_of_empty in Hi. contradiction.
  - intros i o Ho. cbn in Ho. rewrite lookup_empty in Ho. discriminate.
Qed.

(** An id below the counter that is not registered stays unregistered. *)
Lemma run_gone_for_good (t : Tracker) (frames : list (list BoundingBox))
    (i : Z) :
  (i < nextId t)%Z -> i ∉ dom (registry t) -> i ∉ dom (registry (run t frames)).
Proof.
  intros Hlt Hgone Hback.
  destruct (run_grows t frames) as (_ & _ & _ & Hr & Hd).
  rewrite Forall_forall in Hr.
  apply Hd in Hback as [Hin | Hin]; [contradiction|].
  specialize (Hr i Hin). cbn in Hr. lia.
Qed.

(** An object that stays without a detection for enough consecutive
    frames is deregistered. *)
Lemma missing_through_deregisters (frames : list (list BoundingBox))
    (t : Tracker) (i : Z) (o : TrackedObject) :
  ids_below_next t ->
  registry t !! i = Some o ->
  (disappearedCount o <= maxDisappeared t)%nat ->
  missing_through i t frames ->
  (maxDisappeared t < disappearedCount o + length frames)%nat ->
  i ∉ dom (registry (run t frames)).
Proof.
  revert t o. induction frames as [|boxes rest IH];
    intros t o Hwf Ho Hle Hmiss Hlong.
  - cbn in Hlong. lia.
  - destruct Hmiss as [Hun Hmiss]. rewrite run_cons.
    pose proof (update_state_missing t boxes i o Hwf Ho Hun) as Hstep.
    pose proof (update_state_grows t boxes) as Hg.
    assert (Hwf' : ids_below_next (fst (update t boxes)))
      by (eapply grows_ids_below_next; [exact Hg|exact Hwf]).
    assert (Hlt : (i < nextId (fst (update t boxes)))%Z).
    { destruct Hg as (Hn & _). cbn.
      assert (i < nextId t)%Z by (apply Hwf, elem_of_dom; eauto). lia. }
    unfold aged in Hstep.
    destruct (maxDisappeared t <? disappearedCount (age o))%nat eqn:E.
    + apply run_gone_for_good; [exact Hlt|].
      apply not_elem_of_dom. exact Hstep.
    + apply Nat.ltb_ge in E.
      apply (IH (fst (update t boxes)) (age o) Hwf' Hstep).
      * destruct Hg as (_ & Hm & _). cbn. rewrite Hm. exact E.
      * exact Hmiss.
      * destruct Hg as (_ & Hm & _). cbn. rewrite Hm. cbn in Hlong |- *. lia.
Qed.

(** The keys of the items that [update] returns are distinct, which is
    what the loop over them relies on. *)
Lemma update_items_distinct (t : Tracker) (boxes : list BoundingBox) :
  NoDup (map_to_list (snd (update t boxes))).*1.
Proof. apply NoDup_fst_map_to_list. Qed.

(** The loop of lines 100-121 has no part in the tracker's next state. *)
Lemma main_iteration_tracker (time_time : Z -> float)
    (rects : list BoundingBox) (ct : Tracker) (w : world) :
  fst (main_iteration time_time rects ct w) = fst (update ct rects).
Proof. reflexivity. Qed.

(** ** The rounds of the greedy matching *)

Lemma pick_elem (cands : list candidate) (best : candidate) :
  pick cands = Some best -> best ∈ cands.
Proof.
  revert best. induction cands as [|a rest IH]; intros best; cbn.
  - discriminate.
  - fold (pick rest). destruct (pick rest) as [b|].
    + destruct (better a b); intros [= <-]; [left|right; apply IH; reflexivity].
    + intros [= <-]. left.
Qed.

Lemma candidates_elem (rows : list (Z * Centroid)) (cols : list (nat * Centroid))
    (r : Z * Centroid) (c : nat * Centroid) :
  (r, c) ∈ candidates rows cols -> r ∈ rows /\ c ∈ cols.
Proof.
  unfold candidates. intros Hin.
  apply list_elem_of_In, in_flat_map in Hin as (r' & Hr' & Hin).
  apply in_map_iff in Hin as (c' & [= <- <-] & Hc').
  split; apply list_elem_of_In; assumption.
Qed.

Lemma filter_row_shorter (rows : list (Z * Centroid)) (r : Z * Centroid) :
  r ∈ rows ->
  (length (filter (fun r' => fst r' <> fst r) rows) < length rows)%nat.
Proof.
  induction rows as [|a rest IH]; intros Hin.
  - apply elem_of_nil in Hin. contradiction.
  - rewrite filter_cons. cbn [length].
    pose proof (length_filter (fun r' => fst r' <> fst r) rest) as Hle.
    apply elem_of_cons in Hin as [-> | Hin].
    + rewrite decide_False by (intros Hne; apply Hne; reflexivity). lia.
    + specialize (IH Hin). case_decide; cbn [length]; lia.
Qed.

(** The matching does not depend on the number of rounds once there is
    one round for each row. *)
Lemma greedy_rounds_enough (n m : nat) (rows : list (Z * Centroid))
    (cols : list (nat * Centroid)) :
  (length rows <= n)%nat -> (length rows <= m)%nat ->
  greedy n rows cols = greedy m rows cols.
Proof.
  revert m rows cols. induction n as [|n IH]; intros m rows cols Hn Hm.
  - destruct rows; [|cbn in Hn; lia]. destruct m; reflexivity.
  - destruct m as [|m].
    + destruct rows; [|cbn in Hm; lia]. reflexivity.
    + cbn [greedy].
      destruct (pick (candidates rows cols)) as [[r c]|] eqn:Hpick;
        [|reflexivity].
      apply pick_elem, candidates_elem in Hpick as [Hr _].
      pose proof (filter_row_shorter rows r Hr).
      f_equal. apply IH; lia.
Qed.

(** ** The two properties of the tracker *)

(** C7. Over any sequence of [update] calls on a new tracker, the ids
    assigned to the objects it registers, taken in the order of their
    registration, are strictly increasing, so none is assigned twice, and
    every registered id is one of them. In particular an object that then
    stays without a detection for more than [maxDisappeared] consecutive
    frames is deregistered, its id does not come back, and every id
    assigned afterwards is strictly higher. *)
Theorem ids_increase_never_reused (maxD : nat)
    (fs0 fs1 fs2 : list (list BoundingBox)) :
  let t0 := run (new_tracker maxD) fs0 in
  let t1 := run t0 fs1 in
  let t2 := run t1 fs2 in
  StronglySorted Z.lt (assigned (new_tracker maxD) (fs0 ++ fs1 ++ fs2)) /\
  (forall j, j ∈ dom (registry t2) ->
             j ∈ assigned (new_tracker maxD) (fs0 ++ fs1 ++ fs2)) /\
  (forall i o,
     registry t0 !! i = Some o ->
     missing_through i t0 fs1 ->
     (maxD < disappearedCount o + length fs1)%nat ->
     (i ∉ dom (registry t1)) /\ (i ∉ dom (registry t2)) /\
     Forall (fun new => (i < new)%Z) (assigned t1 fs2)).
Proof.
  cbn zeta.
  pose proof (run_grows (new_tracker maxD) (fs0 ++ fs1 ++ fs2))
    as (_ & _ & Hsorted & _ & Hdom).
  split; [exact Hsorted|]. split.
  - intros j Hj. rewrite <- !run_app in Hj.
    apply Hdom in Hj as [Hj | Hj]; [|exact Hj].
    cbn in Hj. rewrite dom_empty_L in Hj. apply elem_of_empty in Hj.
    contradiction.
  - intros i o Ho Hmiss Hlong.
    destruct (new_tracker_invariants maxD) as [Hwf Hcw].
    destruct (run_invariants _ fs0 Hwf Hcw) as [Hwf0 Hcw0].
    pose proof (run_grows (new_tracker maxD) fs0) as (_ & Hm0 & _).
    cbn in Hm0.
    pose proof (run_grows (run (new_tracker maxD) fs0) fs1) as (Hn1 & _).
    pose proof (run_grows (run (run (new_tracker maxD) fs0) fs1) fs2)
      as (_ & _ & _ & Hr2 & _).
    assert (Hlt : (i < nextId (run (new_tracker maxD) fs0))%Z)
      by (apply Hwf0, elem_of_dom; eauto).
    assert (Hgone : i ∉ dom (registry (run (run (new_tracker maxD) fs0) fs1))).
    { apply (missing_through_deregisters fs1 _ i o Hwf0 Ho).
      - specialize (Hcw0 i o Ho). exact Hcw0.
      - exact Hmiss.
      - rewrite Hm0. exact Hlong. }
    split; [exact Hgone|]. split.
    + apply run_gone_for_good; [lia|exact Hgone].
    + eapply Forall_impl; [exact Hr2|]. cbn. intros new Hnew. lia.
Qed.

Lemma ids_increase_never_reused_witness :
  let t0 := run (new_tracker 1) [[mkBox 0 0 10 10]] in
  let t1 := run t0 [[]; []] in
  let t2 := run t1 [[mkBox 50 50 60 60]] in
  registry t0 !! 0%Z = Some (mkObject 0 (mkCentroid 5 5) 0) /\
  (0%Z ∉ dom (registry t1)) /\ (0%Z ∉ dom (registry t2)) /\
  Forall (fun new => (0 < new)%Z) (assigned t1 [[mkBox 50 50 60 60]]).
Proof.
  cbn zeta. split; [vm_compute; reflexivity|].
  destruct (ids_increase_never_reused 1 [[mkBox 0 0 10 10]] [[]; []]
              [[mkBox 50 50 60 60]]) as (_ & _ & H).
  apply (H 0%Z (mkObject 0 (mkCentroid 5 5) 0)).
  - vm_compute. reflexivity.
  - cbn [missing_through]. repeat split; vm_compute; intros Hin; inversion Hin.
  - cbn. lia.
Defined.

(** C8. [update] with no box ages every registered object by one frame:
    an object whose incremented count does not exceed [maxDisappeared]
    stays, with that count and with its id and centroid as they were; an
    object whose incremented count exceeds it is removed; nothing is
    added; and the mapping returned is that of the remaining objects to
    their centroids. *)
Theorem update_without_boxes (t : Tracker) :
  let t' := fst (update t []) in
  (forall i o, registry t !! i = Some o ->
     (S (disappearedCount o) <= maxDisappeared t)%nat ->
     registry t' !! i
     = Some (mkObject (obj_id o) (obj_centroid o) (S (disappearedCount o)))
     /\ snd (update t []) !! i = Some (obj_centroid o)) /\
  (forall i o, registry t !! i = Some o ->
     (maxDisappeared t < S (disappearedCount o))%nat ->
     registry t' !! i = None /\ snd (update t []) !! i = None) /\
  (forall i, registry t !! i = None ->
     registry t' !! i = None /\ snd (update t []) !! i = None) /\
  snd (update t []) = obj_centroid <$> registry t' /\
  nextId t' = nextId t /\ maxDisappeared t' = maxDisappeared t.
Proof.
  cbn zeta.
  assert (Hupd : fst (update t []) = foldl mark_missing t (map fst (rows_of t))).
  { unfold update, update_state. cbn [map fst]. rewrite andb_false_r. reflexivity. }
  assert (Hout : snd (update t []) = obj_centroid <$> registry (fst (update t [])))
    by reflexivity.
  assert (Hlook : forall i, registry (fst (update t [])) !! i
                            = registry t !! i ≫= aged (maxDisappeared t)).
  { intros i. rewrite Hupd, foldl_mark_missing_lookup by apply rows_of_NoDup.
    case_decide as Hin; [reflexivity|].
    destruct (registry t !! i) eqn:Ho; [|reflexivity].
    exfalso. apply Hin, rows_of_elem. eauto. }
  split; [|split; [|split; [|split; [exact Hout|split]]]].
  - intros i o Ho Hle.
    assert (Hstay : registry (fst (update t [])) !! i = Some (age o)).
    { rewrite Hlook, Ho. cbn [mbind option_bind]. unfold aged.
      assert ((maxDisappeared t <? disappearedCount (age o))%nat = false) as ->
        by (apply Nat.ltb_ge; exact Hle).
      reflexivity. }
    split; [exact Hstay|]. rewrite Hout, lookup_fmap, Hstay. reflexivity.
  - intros i o Ho Hgt.
    assert (Hgone : registry (fst (update t [])) !! i = None).
    { rewrite Hlook, Ho. cbn [mbind option_bind]. unfold aged.
      assert ((maxDisappeared t <? disappearedCount (age o))%nat = true) as ->
        by (apply Nat.ltb_lt; exact Hgt).
      reflexivity. }
    split; [exact Hgone|]. rewrite Hout, lookup_fmap, Hgone. reflexivity.
  - intros i Hnone.
    assert (Hgone : registry (fst (update t [])) !! i = None)
      by (rewrite Hlook, Hnone; reflexivity).
    split; [exact Hgone|]. rewrite Hout, lookup_fmap, Hgone. reflexivity.
  - rewrite Hupd. apply foldl_mark_missing_nextId.
  - rewrite Hupd. apply foldl_mark_missing_maxDisappeared.
Qed.

Lemma update_without_boxes_witness :
  let t := {| registry := {[ 0%Z := mkObject 0 (mkCentroid 5 5) 0;
                             1%Z := mkObject 1 (mkCentroid 9 9) 1 ]};
              nextId := 2; maxDisappeared := 1 |} in
  (registry (fst (update t [])) !! 0%Z = Some (mkObject 0 (mkCentroid 5 5) 1)
   /\ snd (update t []) !! 0%Z = Some (mkCentroid 5 5)) /\
  (registry (fst (update t [])) !! 1%Z = None
   /\ snd (update t []) !! 1%Z = None) /\
  (registry (fst (update t [])) !! 2%Z = None
   /\ snd (update t []) !! 2%Z = None).
Proof.
  cbn zeta.
  destruct (update_without_boxes
              {| registry := {[ 0%Z := mkObject 0 (mkCentroid 5 5) 0;
                                1%Z := mkObject 1 (mkCentroid 9 9) 1 ]};
                 nextId := 2; maxDisappeared := 1 |})
    as (Hstay & Hgo & Hnone & _).
  split; [|split].
  - apply (Hstay 0%Z (mkObject 0 (mkCentroid 5 5) 0)); [reflexivity|cbn; lia].
  - apply (Hgo 1%Z (mkObject 1 (mkCentroid 9 9) 1)); [reflexivity|cbn; lia].
  - apply (Hnone 2%Z). reflexivity.
Defined.

Example tracker_run :
  let t := run (new_tracker 1)
             [ [mkBox 0 0 10 10; mkBox 100 100 120 120];
               [mkBox 101 101 121 121];
               [];
               [mkBox 300 300 310 310; mkBox 111 111 113 113] ] in
  (mapping t !! 0%Z, mapping t !! 1%Z, mapping t !! 2%Z, nextId t)
  = (None, Some (mkCentroid 112 112), Some (mkCentroid 305 305), 3%Z).
Proof. vm_compute. reflexivity. Qed.

(** ** More on the gate: an identity between the bounds *)

(** With an entry and 200 <= x <= 600 an iteration changes the loop
    variable only: inside the zone the entry is not overwritten (line
    105), on a bound neither branch applies (lines 102 and 112). *)
Lemma loop_body_within (now : float) (key : Z) (centroid : Centroid)
    (w : world) (entry : float) :
  velCentroids w !! key = Some entry ->
  (200 <= c0 centroid <= 600)%Z ->
  loop_body now key centroid w = Normal (set_objectID (PyInt key) w).
Proof.
  intros Hentry Hin.
  destruct (decide (c0 centroid = 200 \/ c0 centroid = 600)%Z) as [Hb | Hb].
  - apply loop_body_boundary. exact Hb.
  - apply (loop_body_inside _ _ _ _ entry); [lia|exact Hentry].
Qed.

Lemma for_items_within (time_time : Z -> float) (items : list (Z * Centroid))
    (w : world) (id : Z) (entry : float) :
  velCentroids w !! id = Some entry ->
  (forall c, (id, c) ∈ items -> (200 <= c0 c <= 600)%Z) ->
  gate_view id (world_of (for_items time_time items w)) = gate_view id w.
Proof.
  revert w. induction items as [|[key centroid] rest IH]; intros w Hentry Hin.
  - reflexivity.
  - assert (Hstep : gate_view id
                      (world_of (loop_body (time_time key) key centroid w))
                    = gate_view id w).
    { destruct (decide (key = id)) as [-> | Hne].
      - rewrite (loop_body_within _ _ _ _ entry); [reflexivity|exact Hentry|].
        apply Hin. left.
      - apply loop_body_other. exact Hne. }
    assert (Hrest : forall c, (id, c) ∈ rest -> (200 <= c0 c <= 600)%Z).
    { intros c Hc. apply Hin. right. exact Hc. }
    cbn [for_items].
    destruct (loop_body (time_time key) key centroid w) as [w1|w1];
      cbn in Hstep |- *.
    + rewrite IH; [exact Hstep| |exact Hrest].
      injection Hstep as Hlook _. congruence.
    + exact Hstep.
Qed.

(** X1. An identity with an entry keeps that entry, and nothing is printed
    for it, through any run of frames in which it is absent or seen with
    200 <= x <= 600: further sightings inside the zone do not restart its
    clock, and a sighting exactly on a bound does not end the transit. *)
Theorem within_bounds_keeps_entry
    (frames : list ((Z -> float) * list (Z * Centroid))) (w : world) (id : Z)
    (entry : float) :
  velCentroids w !! id = Some entry ->
  (forall time_time cs c,
     (time_time, cs) ∈ frames -> (id, c) ∈ cs -> (200 <= c0 c <= 600)%Z) ->
  gate_view id (world_of (main_loop frames w)) = gate_view id w.
Proof.
  revert w. induction frames as [|[time_time cs] rest IH]; intros w Hentry Hin.
  - reflexivity.
  - assert (Hv : gate_view id (world_of (observe time_time cs w))
                 = gate_view id w).
    { unfold observe. rewrite (for_items_within _ _ _ _ entry).
      - apply observe_view.
      - exact Hentry.
      - intros c Hc. apply (Hin time_time cs c); [left|exact Hc]. }
    cbn [main_loop].
    destruct (observe time_time cs w) as [w1|w1]; cbn in Hv |- *.
    + rewrite IH; [exact Hv| |].
      * injection Hv as Hlook _. congruence.
      * intros tt' cs' c Hf Hc. apply (Hin tt' cs' c); [right; exact Hf|exact Hc].
    + exact Hv.
Qed.

Lemma within_bounds_keeps_entry_witness :
  let w := {| velCentroids := {[ 7%Z := 1%float ]}; centoids := [];
              objectID := None; stdout := [] |} in
  gate_view 7 (world_of (main_loop
     [(fun _ : Z => 2%float, [(7%Z, mkCentroid 300 5)]);
      (fun _ : Z => 3%float, [(7%Z, mkCentroid 600 5)])] w))
  = gate_view 7 w.
Proof.
  cbn zeta. apply (within_bounds_keeps_entry _ _ 7 1%float).
  - reflexivity.
  - intros time_time cs c Hf Hc.
    repeat (apply elem_of_cons in Hf as [Hf | Hf];
            [injection Hf as -> ->;
             apply list_elem_of_singleton in Hc; injection Hc as ->; cbn; lia|]).
    apply elem_of_nil in Hf. contradiction.
Defined.

(** ** More on the gate: what one frame can print *)

(** What one iteration prints for its own key: nothing, or one velocity,
    and then the key had an entry and has none afterwards. *)
Lemma loop_body_prints (now : float) (id : Z) (c : Centroid) (w : world) :
  exists more,
    readings_for id (stdout (world_of (loop_body now id c w)))
    = readings_for id (stdout w) ++ more /\
    (length more <= 1)%nat /\
    (more <> [] ->
     is_Some (velCentroids w !! id) /\
     velCentroids (world_of (loop_body now id c w)) !! id = None).
Proof.
  unfold loop_body. cbn.
  destruct ((200 <? c0 c)%Z && (c0 c <? 600)%Z);
    destruct (velCentroids w !! id) as [entry|] eqn:Hentry; cbn;
    try (exists []; rewrite app_nil_r; cbn; repeat split; auto; congruence).
  destruct ((c0 c <? 200)%Z || (600 <? c0 c)%Z);
    [destruct (PrimFloat.eqb (now - entry) 0)|]; cbn;
    try (exists []; rewrite app_nil_r; cbn; repeat split; auto; congruence).
  exists [(distance / (now - entry) * 3600)%float].
  rewrite readings_for_app, readings_for_own, lookup_delete_eq.
  repeat split; cbn; eauto.
Qed.

(** X2. Whatever a frame holds and however it ends, it prints at most one
    velocity for an identity, and only for one that had an entry before
    the frame and has none after it: an identity cannot enter and leave
    within one frame. *)
Theorem at_most_one_reading_per_frame (time_time : Z -> float)
    (items : list (Z * Centroid)) (w : world) (id : Z) :
  NoDup items.*1 ->
  exists more,
    readings_for id (stdout (world_of (observe time_time items w)))
    = readings_for id (stdout w) ++ more /\
    (length more <= 1)%nat /\
    (more <> [] ->
     is_Some (velCentroids w !! id) /\
     velCentroids (world_of (observe time_time items w)) !! id = None).
Proof.
  intros Hnd.
  assert (Hsame : gate_view id (world_of (observe time_time items w))
                  = gate_view id w ->
                  exists more,
                    readings_for id (stdout (world_of (observe time_time items w)))
                    = readings_for id (stdout w) ++ more /\
                    (length more <= 1)%nat /\
                    (more <> [] ->
                     is_Some (velCentroids w !! id) /\
                     velCentroids (world_of (observe time_time items w)) !! id
                     = None)).
  { intros Hv. injection Hv as _ Hread. exists [].
    rewrite app_nil_r. cbn. repeat split; auto; congruence. }
  destruct (decide (id ∈ items.*1)) as [Hmem | Habs].
  - apply list_elem_of_fmap in Hmem as ([k c] & Hk & Hin). cbn in Hk. subst k.
    unfold observe in *.
    destruct (for_items_reach time_time items
                {| velCentroids := velCentroids w; centoids := items;
                   objectID := objectID w; stdout := stdout w |}
                id c Hnd Hin) as [Hv | (w1 & Hv1 & Hv)].
    + apply Hsame. rewrite Hv. apply observe_view.
    + rewrite observe_view in Hv1. injection Hv1 as Hlook1 Hread1.
      injection Hv as Hlook Hread.
      destruct (loop_body_prints (time_time id) id c w1)
        as (more & Hmore & Hlen & Hgone).
      exists more. rewrite Hread, Hmore, Hread1, Hlook, <- Hlook1.
      repeat split; [exact Hlen|apply Hgone; assumption..].
  - apply Hsame. apply observe_absent. exact Habs.
Qed.

Lemma at_most_one_reading_per_frame_witness :
  let items := [(7%Z, mkCentroid 650 80); (8%Z, mkCentroid 300 80)] in
  let w := {| velCentroids := {[ 7%Z := 1%float ]}; centoids := [];
              objectID := None; stdout := [] |} in
  exists more,
    readings_for 7 (stdout (world_of (observe (fun _ => 3%float) items w)))
    = readings_for 7 (stdout w) ++ more /\
    (length more <= 1)%nat /\
    (more <> [] ->
     is_Some (velCentroids w !! 7%Z) /\
     velCentroids (world_of (observe (fun _ => 3%float) items w)) !! 7%Z = None).
Proof.
  intros items w.
  apply (at_most_one_reading_per_frame (fun _ => 3%float) items w 7).
  subst items. cbn. apply NoDup_cons. split.
  - intros Hin. apply list_elem_of_singleton in Hin. discriminate.
  - apply NoDup_singleton.
Defined.

(** ** More on the gate: the division by zero *)

(** X3. When the loop reaches an identity that is strictly outside the
    zone at a clock reading equal to its entry time, line 115 raises: the
    frame stops there, no later frame runs, and every identity that was
    not handled earlier in that frame, the offending one included, is
    left with its entry and its printed velocities as they were. *)
Theorem zero_elapsed_ends_the_run (time_time : Z -> float)
    (pre post : list (Z * Centroid)) (id : Z) (c : Centroid) (w : world)
    (entry : float) (rest : list ((Z -> float) * list (Z * Centroid))) :
  NoDup (pre ++ (id, c) :: post).*1 ->
  safe_frame time_time pre w = true ->
  velCentroids w !! id = Some entry ->
  (c0 c < 200 \/ 600 < c0 c)%Z ->
  PrimFloat.eqb (time_time id - entry) 0 = true ->
  exists w',
    main_loop ((time_time, pre ++ (id, c) :: post) :: rest) w
    = ZeroDivisionError w' /\
    forall k, k ∉ pre.*1 -> gate_view k w' = gate_view k w.
Proof.
  intros Hnd Hsafe Hentry Hout Hzero.
  rewrite fmap_app, fmap_cons in Hnd. cbn in Hnd.
  apply NoDup_app in Hnd as (Hndpre & Hdisj & _).
  assert (Hfresh : id ∉ pre.*1) by (intros Hin; apply (Hdisj id Hin); left).
  set (w0 := {| velCentroids := velCentroids w;
                centoids := pre ++ (id, c) :: post;
                objectID := objectID w; stdout := stdout w |}).
  destruct (for_items_completes time_time pre w0 Hndpre) as [w1 Hpre].
  { rewrite <- Hsafe. apply safe_frame_ext. reflexivity. }
  assert (Hkeep : forall k, k ∉ pre.*1 -> gate_view k w1 = gate_view k w).
  { intros k Hk. pose proof (for_items_absent time_time pre w0 k Hk) as Hv.
    rewrite Hpre in Hv. exact Hv. }
  assert (Hlook : velCentroids w1 !! id = Some entry).
  { specialize (Hkeep id Hfresh). injection Hkeep as Hl _. congruence. }
  exists (set_objectID (PyInt id) w1). split.
  - cbn [main_loop]. unfold observe. fold w0.
    rewrite for_items_app, Hpre. cbn [bind for_items].
    rewrite (loop_body_zero _ _ _ _ entry Hout Hlook Hzero). reflexivity.
  - intros k Hk. rewrite <- (Hkeep k Hk). reflexivity.
Qed.

Lemma zero_elapsed_ends_the_run_witness :
  let w := {| velCentroids := {[ 7%Z := 1%float; 8%Z := 0.5%float ]};
              centoids := []; objectID := None; stdout := [] |} in
  exists w',
    main_loop [(fun _ : Z => 1%float,
                [(7%Z, mkCentroid 650 80); (8%Z, mkCentroid 700 80)]);
               (fun _ : Z => 2%float, [(8%Z, mkCentroid 700 80)])] w
    = ZeroDivisionError w' /\
    forall k, k ∉ ([] : list (Z * Centroid)).*1 -> gate_view k w' = gate_view k w.
Proof.
  intros w.
  apply (zero_elapsed_ends_the_run (fun _ => 1%float) []
           [(8%Z, mkCentroid 700 80)] 7 (mkCentroid 650 80) w 1%float).
  - cbn. apply NoDup_cons. split.
    + intros Hin. apply list_elem_of_singleton in Hin. discriminate.
    + apply NoDup_singleton.
  - reflexivity.
  - reflexivity.
  - cbn. lia.
  - reflexivity.
Defined.

(** ** More on the gate: identities do not interfere *)

(** What an iteration makes of its own key's entry and velocities depends
    on these, the centroid and the clock only. *)
Lemma loop_body_view_congr (now : float) (id : Z) (c : Centroid)
    (wa wb wa' wb' : world) :
  gate_view id wa = gate_view id wb ->
  loop_body now id c wa = Normal wa' ->
  loop_body now id c wb = Normal wb' ->
  gate_view id wa' = gate_view id wb'.
Proof.
  unfold gate_view. intros [= Hlook Hread]. unfold loop_body. cbn.
  rewrite Hlook.
  destruct ((200 <? c0 c)%Z && (c0 c <? 600)%Z);
    destruct (velCentroids wb !! id) as [entry|] eqn:Hentry;
    try (intros [= <-] [= <-]; cbn; rewrite ?lookup_insert_eq;
         congruence).
  destruct ((c0 c <? 200)%Z || (600 <? c0 c)%Z);
    [destruct (PrimFloat.eqb (now - entry) 0); [discriminate|]|];
    intros [= <-] [= <-]; cbn.
  - rewrite !lookup_delete_eq, !readings_for_app, Hread. reflexivity.
  - congruence.
Qed.

Lemma observe_view_congr (t1 t2 : Z -> float)
    (items1 items2 : list (Z * Centroid)) (w1 w2 w1' w2' : world) (id : Z)
    (c : Centroid) :
  NoDup items1.*1 -> NoDup items2.*1 ->
  (id, c) ∈ items1 -> (id, c) ∈ items2 ->
  t1 id = t2 id ->
  gate_view id w1 = gate_view id w2 ->
  observe t1 items1 w1 = Normal w1' ->
  observe t2 items2 w2 = Normal w2' ->
  gate_view id w1' = gate_view id w2'.
Proof.
  intros Hnd1 Hnd2 Hin1 Hin2 Hclock Hv Hrun1 Hrun2.
  destruct (for_items_at _ _ _ _ _ _ Hnd1 Hin1 Hrun1)
    as (wa & wa' & Ha & Hbodya & Ha').
  destruct (for_items_at _ _ _ _ _ _ Hnd2 Hin2 Hrun2)
    as (wb & wb' & Hb & Hbodyb & Hb').
  rewrite observe_view in Ha, Hb. rewrite Ha', Hb'. rewrite <- Hclock in Hbodyb.
  apply (loop_body_view_congr _ _ _ _ _ _ _ (eq_trans Ha (eq_trans Hv (eq_sym Hb)))
           Hbodya Hbodyb).
Qed.

(** X4. What a frame that runs through makes of an identity depends on
    that identity's own centroid, clock reading, entry and velocities
    only: two frames that agree on these leave it with the same entry and
    the same velocities, whatever other identities they hold and whatever
    entries those have. *)
Theorem identities_do_not_interfere (t1 t2 : Z -> float)
    (items1 items2 : list (Z * Centroid)) (w1 w2 w1' w2' : world) (id : Z)
    (c : Centroid) :
  NoDup items1.*1 -> NoDup items2.*1 ->
  (id, c) ∈ items1 -> (id, c) ∈ items2 ->
  t1 id = t2 id ->
  velCentroids w1 !! id = velCentroids w2 !! id ->
  readings_for id (stdout w1) = readings_for id (stdout w2) ->
  observe t1 items1 w1 = Normal w1' ->
  observe t2 items2 w2 = Normal w2' ->
  velCentroids w1' !! id = velCentroids w2' !! id /\
  readings_for id (stdout w1') = readings_for id (stdout w2').
Proof.
  intros Hnd1 Hnd2 Hin1 Hin2 Hclock Hlook Hread Hrun1 Hrun2.
  assert (Hv : gate_view id w1 = gate_view id w2)
    by (unfold gate_view; rewrite Hlook, Hread; reflexivity).
  pose proof (observe_view_congr _ _ _ _ _ _ _ _ _ _
                Hnd1 Hnd2 Hin1 Hin2 Hclock Hv Hrun1 Hrun2) as Hv'.
  injection Hv' as Hlook' Hread'. split; assumption.
Qed.

Lemma identities_do_not_interfere_witness :
  let w1 := {| velCentroids := {[ 7%Z := 1%float ]}; centoids := [];
               objectID := None; stdout := [] |} in
  let w2 := {| velCentroids := {[ 7%Z := 1%float; 9%Z := 2%float ]};
               centoids := []; objectID := None;
               stdout := [(5%Z, 4%float)] |} in
  exists w1' w2',
    velCentroids w1' !! 7%Z = velCentroids w2' !! 7%Z /\
    readings_for 7 (stdout w1') = readings_for 7 (stdout w2').
Proof.
  intros w1 w2. eexists _, _.
  apply (identities_do_not_interfere (fun _ => 3%float) (fun _ => 3%float)
           [(7%Z, mkCentroid 650 80)]
           [(9%Z, mkCentroid 900 1); (7%Z, mkCentroid 650 80)]
           w1 w2 _ _ 7 (mkCentroid 650 80)).
  - cbn. apply NoDup_singleton.
  - cbn. apply NoDup_cons. split.
    + intros Hin. apply list_elem_of_singleton in Hin. discriminate.
    + apply NoDup_singleton.
  - left.
  - right. left.
  - reflexivity.
  - reflexivity.
  - reflexivity.
  - reflexivity.
  - reflexivity.
Defined.

(** ** More on the gate: the order of the items *)




(** ** More on the gate: where entries come from *)

Lemma loop_body_entry_origin (now : float) (key : Z) (c : Centroid)
    (w : world) (k : Z) (e : float) :
  velCentroids (world_of (loop_body now key c w)) !! k = Some e ->
  velCentroids w !! k = Some e \/
  (k = key /\ (200 < c0 c < 600)%Z /\ e = now).
Proof.
  unfold loop_body. cbn.
  destruct ((200 <? c0 c)%Z && (c0 c <? 600)%Z) eqn:Hzone;
    destruct (velCentroids w !! key) as [entry|] eqn:Hentry; cbn; auto.
  - rewrite lookup_insert. case_decide as Hk; [|auto].
    intros [= <-]. right. apply andb_true_iff in Hzone as [Hl Hr].
    apply Z.ltb_lt in Hl, Hr. auto.
  - destruct ((c0 c <? 200)%Z || (600 <? c0 c)%Z);
      [destruct (PrimFloat.eqb (now - entry) 0)|]; cbn; auto.
    rewrite lookup_delete. case_decide; [discriminate|auto].
Qed.

Lemma for_items_entry_origin (time_time : Z -> float)
    (items : list (Z * Centroid)) (w : world) (k : Z) (e : float) :
  velCentroids (world_of (for_items time_time items w)) !! k = Some e ->
  velCentroids w !! k = Some e \/
  exists c, (k, c) ∈ items /\ (200 < c0 c < 600)%Z /\ e = time_time k.
Proof.
  revert w. induction items as [|[key c] rest IH]; intros w; cbn [for_items].
  - cbn. auto.
  - pose proof (loop_body_entry_origin (time_time key) key c w k e) as Hstep.
    destruct (loop_body (time_time key) key c w) as [w1|w1]; cbn in Hstep |- *.
    + intros He. apply IH in He as [He | (c' & Hin & Hz & Hclock)].
      * apply Hstep in He as [He | (-> & Hz & Hclock)]; [auto|].
        right. exists c. split; [left|auto].
      * right. exists c'. split; [right; exact Hin|auto].
    + intros He. apply Hstep in He as [He | (-> & Hz & Hclock)]; [auto|].
      right. exists c. split; [left|auto].
Qed.

(** X6. Over any run of frames, however it ends, every entry of
    [velCentroids] is an entry that was there at the start, unchanged, or
    the clock reading of a frame in which its identity was seen with
    200 < x < 600: the gate holds no entry for an identity that it has not
    seen inside the zone, and never alters an entry's time. *)
Theorem entries_come_from_sightings_inside
    (frames : list ((Z -> float) * list (Z * Centroid))) (w : world) (k : Z)
    (e : float) :
  velCentroids (world_of (main_loop frames w)) !! k = Some e ->
  velCentroids w !! k = Some e \/
  exists time_time cs c,
    (time_time, cs) ∈ frames /\ (k, c) ∈ cs /\ (200 < c0 c < 600)%Z /\
    e = time_time k.
Proof.
  revert w. induction frames as [|[time_time cs] rest IH]; intros w;
    cbn [main_loop].
  - cbn. auto.
  - assert (Hstep : velCentroids (world_of (observe time_time cs w)) !! k = Some e ->
                    velCentroids w !! k = Some e \/
                    exists c, (k, c) ∈ cs /\ (200 < c0 c < 600)%Z /\
                              e = time_time k).
    { unfold observe. intros He. apply for_items_entry_origin in He. exact He. }
    destruct (observe time_time cs w) as [w1|w1]; cbn in Hstep |- *.
    + intros He. apply IH in He as [He | (tt' & cs' & c & Hf & Hin & Hz & Hclock)].
      * apply Hstep in He as [He | (c & Hin & Hz & Hclock)]; [auto|].
        right. exists time_time, cs, c. split; [left|auto].
      * right. exists tt', cs', c. split; [right; exact Hf|auto].
    + intros He. apply Hstep in He as [He | (c & Hin & Hz & Hclock)]; [auto|].
      right. exists time_time, cs, c. split; [left|auto].
Qed.

Lemma entries_come_from_sightings_inside_witness :
  let frames := [(fun _ : Z => 2%float, [(8%Z, mkCentroid 300 5)]);
                 (fun _ : Z => 4%float, [(8%Z, mkCentroid 400 5)])] in
  velCentroids initial !! 8%Z = Some 2%float \/
  exists time_time cs c,
    (time_time, cs) ∈ frames /\ (8%Z, c) ∈ cs /\ (200 < c0 c < 600)%Z /\
    2%float = time_time 8%Z.
Proof.
  intros frames.
  apply (entries_come_from_sightings_inside frames initial 8 2%float).
  reflexivity.
Defined.

(** ** More on the gate: a whole transit *)

Lemma observe_within (time_time : Z -> float) (items : list (Z * Centroid))
    (w : world) (id : Z) (entry : float) :
  velCentroids w !! id = Some entry ->
  (forall c, (id, c) ∈ items -> (200 <= c0 c <= 600)%Z) ->
  gate_view id (world_of (observe time_time items w)) = gate_view id w.
Proof.
  intros Hentry Hin. unfold observe.
  rewrite (for_items_within _ _ _ _ entry); [apply observe_view|exact Hentry|exact Hin].
Qed.

Lemma transit_from_entry
    (quiet : list ((Z -> float) * list (Z * Centroid)))
    (time_time : Z -> float) (items : list (Z * Centroid))
    (w w1 w2 : world) (id : Z) (c : Centroid) (entry : float) :
  velCentroids w !! id = Some entry ->
  (forall t cs c', (t, cs) ∈ quiet -> (id, c') ∈ cs -> (200 <= c0 c' <= 600)%Z) ->
  main_loop quiet w = Normal w1 ->
  NoDup items.*1 -> (id, c) ∈ items -> (c0 c < 200 \/ 600 < c0 c)%Z ->
  observe time_time items w1 = Normal w2 ->
  gate_view id w2
  = (None, readings_for id (stdout w)
             ++ [(distance / (time_time id - entry) * 3600)%float]).
Proof.
  revert w. induction quiet as [|[t cs] rest IH];
    intros w Hentry Hquiet Hrun Hnd Hin Hout Hexit.
  - injection Hrun as <-.
    apply (observe_exit _ _ _ _ _ _ Hnd Hin Hexit entry Hentry Hout).
  - cbn [main_loop] in Hrun.
    pose proof (observe_within t cs w id entry Hentry) as Hv.
    destruct (observe t cs w) as [wf|wf]; cbn in Hrun, Hv; [|discriminate].
    assert (Hvf : gate_view id wf = gate_view id w).
    { apply Hv. intros c' Hc'. apply (Hquiet t cs c'); [left|exact Hc']. }
    injection Hvf as Hlook Hread. rewrite <- Hread.
    apply IH; auto; [congruence|].
    intros t' cs' c' Hf Hc'. apply (Hquiet t' cs' c'); [right; exact Hf|exact Hc'].
Qed.

(** X7. A whole transit: an identity without an entry is seen inside the
    zone, then in any number of frames is absent or seen with
    200 <= x <= 600, then is seen strictly outside. If all these frames
    run through, exactly one velocity has been printed for it meanwhile,
    distance / (t_exit - t_entry) * 3600 with the clock readings of the
    first and of the last of these frames, and it has no entry left. *)
Theorem transit_is_timed_from_first_sighting
    (t_in t_out : Z -> float) (items_in items_out : list (Z * Centroid))
    (quiet : list ((Z -> float) * list (Z * Centroid)))
    (w0 w w1 w2 : world) (id : Z) (c_in c_out : Centroid) :
  velCentroids w0 !! id = None ->
  NoDup items_in.*1 -> (id, c_in) ∈ items_in -> (200 < c0 c_in < 600)%Z ->
  observe t_in items_in w0 = Normal w ->
  (forall t cs c', (t, cs) ∈ quiet -> (id, c') ∈ cs -> (200 <= c0 c' <= 600)%Z) ->
  main_loop quiet w = Normal w1 ->
  NoDup items_out.*1 -> (id, c_out) ∈ items_out ->
  (c0 c_out < 200 \/ 600 < c0 c_out)%Z ->
  observe t_out items_out w1 = Normal w2 ->
  velCentroids w2 !! id = None /\
  readings_for id (stdout w2)
  = readings_for id (stdout w0)
      ++ [(distance / (t_out id - t_in id) * 3600)%float].
Proof.
  intros Hnone Hnd_in Hin_in Hzone Hrun_in Hquiet Hrun_q Hnd_out Hin_out Hout
         Hrun_out.
  pose proof (observe_enter _ _ _ _ _ _ Hnd_in Hin_in Hrun_in Hnone Hzone) as Hv.
  injection Hv as Hlook Hread.
  pose proof (transit_from_entry quiet t_out items_out w w1 w2 id c_out
                (t_in id) Hlook Hquiet Hrun_q Hnd_out Hin_out Hout Hrun_out)
    as Hv2.
  injection Hv2 as Hlook2 Hread2. rewrite Hread in Hread2.
  split; assumption.
Qed.

Lemma transit_is_timed_from_first_sighting_witness :
  exists w2,
    velCentroids w2 !! 4%Z = None /\
    readings_for 4 (stdout w2)
    = readings_for 4 (stdout initial) ++ [(distance / (9 - 1) * 3600)%float].
Proof.
  eexists.
  eapply (transit_is_timed_from_first_sighting
           (fun _ => 1%float) (fun _ => 9%float)
           [(4%Z, mkCentroid 400 80)] [(4%Z, mkCentroid 650 80)]
           [(fun _ : Z => 2%float, [(4%Z, mkCentroid 500 80)]);
            (fun _ : Z => 3%float, []);
            (fun _ : Z => 5%float, [(4%Z, mkCentroid 600 80)])]
           initial _ _ _ 4 (mkCentroid 400 80) (mkCentroid 650 80)).
  - reflexivity.
  - cbn. apply NoDup_singleton.
  - left.
  - cbn. lia.
  - reflexivity.
  - intros t cs c' Hf Hc'.
    repeat (apply elem_of_cons in Hf as [Hf | Hf];
            [injection Hf as -> ->;
             first [ apply list_elem_of_singleton in Hc'; injection Hc' as ->;
                     cbn; lia
                   | apply elem_of_nil in Hc'; contradiction ]|]).
    apply elem_of_nil in Hf. contradiction.
  - reflexivity.
  - cbn. apply NoDup_singleton.
  - left.
  - cbn. lia.
  - reflexivity.
Defined.

(** ** More on [findContours] *)

Section FindContoursCount.
Variables frame contour : Type.
Variable cv_findContours : frame -> list contour.
Variable cv_contourArea : contour -> float.
Variable cv_boundingRect : contour -> Z * Z * Z * Z.

(** X8. [findContours] returns as many boxes as there are contours of an
    area above 1000, each an array of four integers, and the empty list
    exactly when no contour has such an area (an area of exactly 1000 or
    an area that is not a number does not count). *)
Theorem findContours_count (fr : frame) :
  let boxes := findContours frame contour cv_findContours cv_contourArea
                 cv_boundingRect fr in
  length boxes
  = length (List.filter (fun cnt => PrimFloat.ltb 1000 (cv_contourArea cnt))
                        (cv_findContours fr)) /\
  (length boxes <= length (cv_findContours fr))%nat /\
  (forall box, box ∈ boxes -> length box = 4%nat) /\
  (boxes = [] <->
   forall cnt, cnt ∈ cv_findContours fr ->
               PrimFloat.ltb 1000 (cv_contourArea cnt) = false).
Proof using Type.
  cbn zeta. unfold findContours. rewrite contour_loop_spec. cbn [app].
  rewrite length_map. split; [reflexivity|]. split.
  - apply List.filter_length_le.
  - split.
    + intros box Hbox. apply list_elem_of_fmap in Hbox as (cnt & -> & _).
      unfold box_of. destruct (cv_boundingRect cnt) as [[[x y] w] h].
      reflexivity.
    + unfold large_enough.
      induction (cv_findContours fr) as [|cnt rest IH]; cbn.
      * split; [|reflexivity]. intros _ cnt Hin.
        apply elem_of_nil in Hin. contradiction.
      * destruct (PrimFloat.ltb 1000 (cv_contourArea cnt)) eqn:Harea; cbn.
        -- split; [discriminate|]. intros Hall.
           rewrite (Hall cnt) in Harea by left. discriminate.
        -- rewrite IH. split.
           ++ intros Hall c Hc. apply elem_of_cons in Hc as [-> | Hc];
                [exact Harea|apply Hall; exact Hc].
           ++ intros Hall c Hc. apply Hall. right. exact Hc.
Qed.
End FindContoursCount.

Lemma findContours_count_witness :
  let fr := [ [(0, 0); (10, 0); (10, 10); (0, 10)];
              [(5, 7); (105, 7); (105, 57); (5, 57)] ]%Z in
  let boxes := findContours _ _ (fun f => f) points_area points_rect fr in
  length boxes = 1%nat /\
  (forall box, box ∈ boxes -> length box = 4%nat) /\
  boxes <> [].
Proof.
  intros fr boxes.
  destruct (findContours_count (list (list (Z * Z))) (list (Z * Z))
              (fun f => f) points_area points_rect fr)
    as (Hlen & _ & Hfour & Hnone).
  split; [exact Hlen|]. split; [exact Hfour|].
  intros Hempty. pose proof (proj1 Hnone Hempty) as Hall.
  specialize (Hall [(5, 7); (105, 7); (105, 57); (5, 57)]%Z).
  assert (Hlarge : PrimFloat.ltb 1000
                     (points_area [(5, 7); (105, 7); (105, 57); (5, 57)]%Z)
                   = true) by (vm_compute; reflexivity).
  rewrite Hall in Hlarge; [discriminate|]. right. left.
Defined.

(** ** [maskMotion] returns a binary mask *)

Lemma threshold_binary_pixels (src : list (list Z)) (thresh maxval p : Z) :
  p ∈ pixels (threshold_binary src thresh maxval) ->
  p = 0%Z \/ (p = maxval /\ exists q, q ∈ pixels src /\ (thresh < q)%Z).
Proof.
  unfold pixels, threshold_binary. intros Hp.
  apply list_elem_of_In, in_concat in Hp as (row & Hrow & Hp).
  apply in_map_iff in Hrow as (row0 & <- & Hrow0).
  apply in_map_iff in Hp as (q & <- & Hq).
  destruct (thresh <? q)%Z eqn:Hcmp; [|left; reflexivity].
  right. split; [reflexivity|]. exists q. split.
  - apply list_elem_of_In, in_concat. exists row0. split; assumption.
  - apply Z.ltb_lt. exact Hcmp.
Qed.

Section MaskMotionFacts.
Variable kernel : Type.
Variable cv_morphologyEx :
  list (list Z) -> morph_op -> kernel -> nat -> list (list Z).

(** Opening and closing take minima and maxima over neighbourhoods: every
    pixel of the result has the value of some pixel of the image. *)
Hypothesis morphology_values :
  forall img op k n p,
    p ∈ pixels (cv_morphologyEx img op k n) -> p ∈ pixels img.

(** X9. Every pixel of the mask that [maskMotion] returns is 0 or 255,
    and it is 255 only if some pixel of the given mask exceeds [minimum]:
    a mask without such a pixel comes back all black. *)
Theorem maskMotion_is_binary (mask : list (list Z)) (minimum : Z)
    (array : kernel) (p : Z) :
  p ∈ pixels (maskMotion kernel cv_morphologyEx mask minimum array) ->
  p = 0%Z \/
  (p = 255%Z /\ exists q, q ∈ pixels mask /\ (minimum < q)%Z).
Proof using morphology_values.
  unfold maskMotion. intros Hp.
  apply morphology_values, morphology_values in Hp.
  apply threshold_binary_pixels in Hp. exact Hp.
Qed.
End MaskMotionFacts.

Lemma maskMotion_is_binary_witness :
  let mask := [[0; 17; 0]; [0; 255; 3]]%Z in
  255%Z ∈ pixels (maskMotion unit (fun img _ _ _ => img) mask 0 tt) /\
  (255%Z = 0%Z \/
   (255%Z = 255%Z /\ exists q, q ∈ pixels mask /\ (0 < q)%Z)).
Proof.
  intros mask.
  assert (Hin : 255%Z ∈ pixels (maskMotion unit (fun img _ _ _ => img) mask 0 tt)).
  { cbn. right. left. }
  split; [exact Hin|].
  apply (maskMotion_is_binary unit (fun img _ _ _ => img)
           (fun img op k n p H => H) mask 0 tt 255 Hin).
Defined.

(** ** More on the gate: leaving and coming back *)

Lemma main_loop_outside
    (frames : list ((Z -> float) * list (Z * Centroid))) (w : world) (id : Z) :
  velCentroids w !! id = None ->
  (forall t cs c, (t, cs) ∈ frames -> (id, c) ∈ cs ->
                  (c0 c <= 200 \/ 600 <= c0 c)%Z) ->
  gate_view id (world_of (main_loop frames w))
  = (None, readings_for id (stdout w)).
Proof.
  revert w. induction frames as [|[t cs] rest IH]; intros w Hnone Hout.
  - cbn. unfold gate_view. rewrite Hnone. reflexivity.
  - assert (Hv : gate_view id (world_of (observe t cs w))
                 = (None, readings_for id (stdout w))).
    { unfold observe. rewrite for_items_outside; [reflexivity|exact Hnone|].
      intros c Hc.
      assert ((t, cs) ∈ (t, cs) :: rest) as Hhead by left.
      specialize (Hout t cs c Hhead Hc). lia. }
    cbn [main_loop].
    destruct (observe t cs w) as [w1|w1]; cbn in Hv |- *; [|exact Hv].
    injection Hv as Hlook Hread. rewrite <- Hread. apply IH; [exact Hlook|].
    intros t' cs' c Hf Hc. apply (Hout t' cs' c); [right; exact Hf|exact Hc].
Qed.

(** X11. An identity is not used up by its first transit. After it has
    left the zone and its velocity has been printed, let it be absent or
    outside the zone for any number of frames, then be seen inside the
    zone, then be absent or seen with 200 <= x <= 600 for any number of
    frames, then be seen strictly outside. If all these frames run
    through, the sighting inside gives it a new entry with that frame's
    clock reading, and the second exit prints a second velocity,
    distance / (t_exit2 - t_entry2) * 3600, in which neither the first
    entry time nor the first exit time occurs; the two velocities are all
    that has been printed for it, and it has no entry left. *)
Theorem reentry_after_any_pause
    (tA tB tC : Z -> float) (itemsA itemsB itemsC : list (Z * Centroid))
    (away quiet : list ((Z -> float) * list (Z * Centroid)))
    (w0 w1 w2 w3 w4 w5 : world) (id : Z) (cA cB cC : Centroid)
    (entry : float) :
  velCentroids w0 !! id = Some entry ->
  NoDup itemsA.*1 -> (id, cA) ∈ itemsA -> (c0 cA < 200 \/ 600 < c0 cA)%Z ->
  observe tA itemsA w0 = Normal w1 ->
  (forall t cs c, (t, cs) ∈ away -> (id, c) ∈ cs ->
                  (c0 c <= 200 \/ 600 <= c0 c)%Z) ->
  main_loop away w1 = Normal w2 ->
  NoDup itemsB.*1 -> (id, cB) ∈ itemsB -> (200 < c0 cB < 600)%Z ->
  observe tB itemsB w2 = Normal w3 ->
  (forall t cs c, (t, cs) ∈ quiet -> (id, c) ∈ cs ->
                  (200 <= c0 c <= 600)%Z) ->
  main_loop quiet w3 = Normal w4 ->
  NoDup itemsC.*1 -> (id, cC) ∈ itemsC -> (c0 cC < 200 \/ 600 < c0 cC)%Z ->
  observe tC itemsC w4 = Normal w5 ->
  velCentroids w3 !! id = Some (tB id) /\
  velCentroids w5 !! id = None /\
  readings_for id (stdout w5)
  = readings_for id (stdout w0)
      ++ [(distance / (tA id - entry) * 3600)%float;
          (distance / (tC id - tB id) * 3600)%float].
Proof.
  intros Hentry HndA HinA HoutA HrunA Haway Hrun_away HndB HinB HinsB HrunB
         Hquiet Hrun_quiet HndC HinC HoutC HrunC.
  pose proof (observe_exit _ _ _ _ _ _ HndA HinA HrunA entry Hentry HoutA) as H1.
  injection H1 as Hlook1 Hread1.
  pose proof (main_loop_outside away w1 id Hlook1 Haway) as H2.
  rewrite Hrun_away in H2. injection H2 as Hlook2 Hread2.
  pose proof (observe_enter _ _ _ _ _ _ HndB HinB HrunB Hlook2 HinsB) as H3.
  injection H3 as Hlook3 Hread3.
  pose proof (transit_from_entry quiet tC itemsC w3 w4 w5 id cC (tB id)
                Hlook3 Hquiet Hrun_quiet HndC HinC HoutC HrunC) as H5.
  injection H5 as Hlook5 Hread5.
  split; [exact Hlook3|]. split; [exact Hlook5|].
  rewrite Hread5, Hread3, Hread2, Hread1, <- app_assoc. reflexivity.
Qed.

Lemma reentry_after_any_pause_witness :
  let w0 := {| velCentroids := {[ 7%Z := 1%float ]}; centoids := [];
               objectID := None; stdout := [] |} in
  exists w3 w5,
    velCentroids w3 !! 7%Z = Some 5%float /\
    velCentroids w5 !! 7%Z = None /\
    readings_for 7 (stdout w5)
    = readings_for 7 (stdout w0)
        ++ [(distance / (3 - 1) * 3600)%float;
            (distance / (9 - 5) * 3600)%float].
Proof.
  intros w0. eexists _, _.
  eapply (reentry_after_any_pause
            (fun _ => 3%float) (fun _ => 5%float) (fun _ => 9%float)
            [(7%Z, mkCentroid 650 80)] [(7%Z, mkCentroid 400 80)]
            [(7%Z, mkCentroid 100 80)]
            [(fun _ : Z => 4%float, [(7%Z, mkCentroid 700 80)])]
            [(fun _ : Z => 6%float, [(7%Z, mkCentroid 200 80)]);
             (fun _ : Z => 7%float, [])]
            w0 _ _ _ _ _ 7 (mkCentroid 650 80) (mkCentroid 400 80)
            (mkCentroid 100 80) 1%float).
  - reflexivity.
  - cbn. apply NoDup_singleton.
  - left.
  - cbn. lia.
  - reflexivity.
  - intros t cs c Hf Hc.
    repeat (apply elem_of_cons in Hf as [Hf | Hf];
            [injection Hf as -> ->;
             first [ apply list_elem_of_singleton in Hc; injection Hc as ->;
                     cbn; lia
                   | apply elem_of_nil in Hc; contradiction ]|]).
    apply elem_of_nil in Hf. contradiction.
  - reflexivity.
  - cbn. apply NoDup_singleton.
  - left.
  - cbn. lia.
  - reflexivity.
  - intros t cs c Hf Hc.
    repeat (apply elem_of_cons in Hf as [Hf | Hf];
            [injection Hf as -> ->;
             first [ apply list_elem_of_singleton in Hc; injection Hc as ->;
                     cbn; lia
                   | apply elem_of_nil in Hc; contradiction ]|]).
    apply elem_of_nil in Hf. contradiction.
  - reflexivity.
  - cbn. apply NoDup_singleton.
  - left.
  - cbn. lia.
  - reflexivity.
Defined.
